(** * ded: single-slot deduplicating cache (github.com/mitranim/ded)

    A shallow embedding of [ded.go] and a verification of its behaviour.

    - Go values of type [interface{}] are the inductive [value].
    - An interface value (a [Getter], [Timer] or [Expirer]) is [None] when
      the interface is nil and [Some m] when it holds an implementation
      whose single method is [m].
    - A method of user code acts on an external world [W] and either
      returns or panics ([result]).
    - Code of the package runs in the monad [M S]: [S] is the object the
      receiver points to, [env] is the world together with the log of the
      capability calls made so far, and a run ends in an [outcome].
    - [time.Time] and [sync.RWMutex] belong to Go's standard library; they are
      modelled from their documentation ([time_Time], [RWMutex]). *)

From Stdlib Require Import ZArith List String Bool Lia.
Import ListNotations.
Local Open Scope Z_scope.

(** ** Go's [time] package

    An instant is its distance in nanoseconds from the zero [time.Time{}];
    a [time.Duration] is a count of nanoseconds. *)

Definition time_Time : Type := Z.
Definition time_Duration : Type := Z.

(** [time.Time{}] *)
Definition time_zero : time_Time := 0.

(** [t.After(u)]: reports whether [t] is later than [u]. *)
Definition time_After (t u : time_Time) : bool := u <? t.

(** [t.Add(d)] *)
Definition time_Add (t : time_Time) (d : time_Duration) : time_Time := t + d.

Definition time_Second : time_Duration := 1000000000.
Definition time_Minute : time_Duration := 60 * time_Second.
Definition time_Hour : time_Duration := 60 * time_Minute.

(** ** Results of calls *)

(** What a call into user code does: it returns [a] or panics with [v]. *)
Inductive result (V A : Type) : Type :=
| Returns (a : A)
| Panics (v : V).
Arguments Returns {V A} a.
Arguments Panics {V A} v.

Section Ded.

(** The world outside the package: whatever user-supplied capabilities and
    the system clock read and change. *)
Context {W : Type}.

(** [time.Now()]: reads the system clock. *)
Variable time_Now : W -> time_Time * W.

(** ** Values of type [interface{}] *)

#[local] Unset Elimination Schemes.
Inductive value : Type :=
| VNil                                            (* the nil interface *)
| VInt (n : Z)
| VStr (s : string)
| VErr (msg : string)                             (* dynamic type implements [error] *)
| VGetter (get : W -> result value value * W).    (* a non-nil [Getter], boxed *)
#[local] Set Elimination Schemes.

(** A method of a capability: a state transformer on the world.  A call
    ends, by returning or by panicking: the package has no timeouts, and a
    capability that never returns keeps its caller waiting forever. *)
Definition method (A : Type) : Type := W -> result value A * W.

(** [val != nil] *)
Definition not_nil (val : value) : bool :=
  match val with VNil => false | _ => true end.

(** The Go interface [error]: [None] is the nil error. *)
Definition error : Type := option string.

(** [err, _ := val.(error)] *)
Definition as_error (val : value) : error :=
  match val with VErr msg => Some msg | _ => None end.

(** An [error] converted to [interface{}], as in [panic(err)]. *)
Definition of_error (err : error) : value :=
  match err with Some msg => VErr msg | None => VNil end.

(** ** The result container and the timestamped result *)

(** [type Either [1]interface{}] *)
Record Either : Type := mkEither { Either_0 : value }.

(** [type Timed struct { Either; Time time.Time }] *)
Record Timed : Type := mkTimed { Timed_Either : Either; Timed_Time : time_Time }.

(** [Timed{}] *)
Definition Timed_zero : Timed := mkTimed (mkEither VNil) time_zero.

(** [func MakeTimed(val interface{}, inst time.Time) Timed] *)
Definition MakeTimed (val : value) (inst : time_Time) : Timed :=
  mkTimed (mkEither val) inst.

(** ** The three capabilities *)

Definition Getter : Type := option (method value).
Definition Timer : Type := option (method time_Time).
Definition Expirer : Type := option (Timed -> method bool).

(** ** Execution monad *)

(** A call to a capability's method, as recorded in the log. *)
Inductive call : Type :=
| CallGet
| CallTime
| CallIsExpired (timed : Timed).

Record env : Type := mkEnv { world : W; calls : list call }.

(** How the run of a piece of package code ends: it returns, it panics, the
    goroutine waits on a lock that nobody releases, or the runtime stops
    the program with a fatal error. *)
Inductive outcome (A : Type) : Type :=
| Ret (a : A)
| Panic (v : value)
| Block
| Fatal.
Arguments Ret {A} a.
Arguments Panic {A} v.
Arguments Block {A}.
Arguments Fatal {A}.

Definition M (S A : Type) : Type := S -> env -> outcome A * S * env.

Definition ret {S A} (a : A) : M S A := fun s e => (Ret a, s, e).

Definition bind {S A B} (m : M S A) (k : A -> M S B) : M S B :=
  fun s e =>
    match m s e with
    | (Ret a, s', e') => k a s' e'
    | (Panic v, s', e') => (Panic v, s', e')
    | (Block, s', e') => (Block, s', e')
    | (Fatal, s', e') => (Fatal, s', e')
    end.

Definition gets {S A} (f : S -> A) : M S A := fun s e => (Ret (f s), s, e).
Definition modify {S} (f : S -> S) : M S unit := fun s e => (Ret tt, f s, e).

(** Runs code written for a field of the object on the object itself. *)
Definition zoom {S T A} (get : S -> T) (set : T -> S -> S) (m : M T A) : M S A :=
  fun s e => let '(r, t', e') := m (get s) e in (r, set t' s, e').

(** The result of a call as the outcome of the caller's step. *)
Definition lift {S A} (r : result value A) : M S A :=
  fun s e =>
    match r with
    | Returns a => (Ret a, s, e)
    | Panics v => (Panic v, s, e)
    end.

(** Calls a method with a value receiver on the object itself. *)
Definition call_on {S A} (f : S -> result value A) : M S A :=
  fun s e => lift (f s) s e.

(** Calls the method [f] of a capability and logs the call. *)
Definition invoke {S A} (c : call) (f : method A) : M S A :=
  fun s e =>
    let (r, w') := f (world e) in
    lift r s (mkEnv w' (calls e ++ [c])).

(** Runs [m] and catches its panic, as a test does with a deferred
    [recover]. *)
Definition attempt {S A} (m : M S A) : M S (result value A) :=
  fun s e =>
    match m s e with
    | (Ret a, s', e') => (Ret (Returns a), s', e')
    | (Panic v, s', e') => (Ret (Panics v), s', e')
    | (Block, s', e') => (Block, s', e')
    | (Fatal, s', e') => (Fatal, s', e')
    end.

(** [defer d(); body] where [d] does not call [recover]: [d] runs when
    [body] has returned or is panicking, and the result of [body] stands
    unless [d] itself fails. *)
Definition defer {S A} (d : M S unit) (body : M S A) : M S A :=
  fun s e =>
    match body s e with
    | (Block, s', e') => (Block, s', e')
    | (Fatal, s', e') => (Fatal, s', e')
    | (r, s', e') =>
        match d s' e' with
        | (Ret _, s'', e'') => (r, s'', e'')
        | (Panic v, s'', e'') => (Panic v, s'', e'')
        | (Block, s'', e'') => (Block, s'', e'')
        | (Fatal, s'', e'') => (Fatal, s'', e'')
        end
    end.

(** [defer d(); body] in a function without results, where [d] starts with
    [val := recover()] and goes on as [d val]: [recover] returns the value
    of the current panic, or nil when there is none, and stops the panic. *)
Definition defer_recover {S} (d : value -> M S unit) (body : M S unit) : M S unit :=
  fun s e =>
    match body s e with
    | (Ret _, s', e') => d VNil s' e'
    | (Panic v, s', e') => d v s' e'
    | (Block, s', e') => (Block, s', e')
    | (Fatal, s', e') => (Fatal, s', e')
    end.

Notation "x <- m ;; k" := (bind m (fun x => k))
  (at level 61, m at next level, right associativity).
Notation "m ;; k" := (bind m (fun _ => k))
  (at level 61, right associativity).

(** ** Nil-safe helpers of the package *)

(** [func Get(val Getter) interface{}]: returns [val] itself, converted to
    [interface{}], when it is not nil. *)
Definition Get {S} (val : Getter) : M S value :=
  match val with
  | Some g => ret (VGetter g)
  | None => ret VNil
  end.

(** [func Time(val Timer) time.Time] *)
Definition Time {S} (val : Timer) : M S time_Time :=
  match val with
  | Some t => invoke CallTime t
  | None => ret time_zero
  end.

(** [func IsExpired(exp Expirer, timed Timed) bool]:
    [exp == nil || exp.IsExpired(timed)] *)
Definition IsExpired {S} (exp : Expirer) (timed : Timed) : M S bool :=
  match exp with
  | None => ret true
  | Some p => invoke (CallIsExpired timed) (p timed)
  end.

(** ** [Either] *)

(** [func (self Either) Unwrap() (interface{}, error)] *)
Definition Either_Unwrap (self : Either) : value * error :=
  let val := Either_0 self in
  let err := as_error val in
  match err with
  | Some _ => (VNil, err)
  | None => (val, None)
  end.

(** [func (self Either) Get() interface{}]: a method with a value receiver,
    so a function of the copy it is given. *)
Definition Either_Get (self : Either) : result value value :=
  let (val, err) := Either_Unwrap self in
  match err with
  | Some _ => Panics (of_error err)
  | None => Returns val
  end.

(** [func (self *Either) Set(val interface{})] *)
Definition Either_Set (val : value) : M Either unit :=
  modify (fun _ => mkEither val).

(** [func (self *Either) rec()], which must be deferred; [val] is what its
    call of [recover()] returns. *)
Definition Either_rec (val : value) : M Either unit :=
  if not_nil val then Either_Set val else ret tt.

(** [func (self *Either) SetGetter(val Getter)] *)
Definition Either_SetGetter (val : Getter) : M Either unit :=
  match val with
  | None => Either_Set VNil
  | Some g =>
      defer_recover Either_rec
        (v <- invoke CallGet g ;;
         Either_Set v)
  end.

(** ** [Timed] *)

(** Access to the embedded [Either] of a [*Timed]. *)
Definition in_Either {A} (m : M Either A) : M Timed A :=
  zoom Timed_Either (fun x t => mkTimed x (Timed_Time t)) m.

(** [self.Time = inst] *)
Definition Timed_set_Time (inst : time_Time) : M Timed unit :=
  modify (fun t => mkTimed (Timed_Either t) inst).

(** [func (self *Timed) SetTimer(val Timer)] *)
Definition Timed_SetTimer (val : Timer) : M Timed unit :=
  match val with
  | None => Timed_set_Time time_zero
  | Some t =>
      defer_recover (fun r => in_Either (Either_rec r))
        (inst <- invoke CallTime t ;;
         Timed_set_Time inst)
  end.

(** ** [sync.RWMutex]

    The mutex is held by any number of readers or by one writer.  A lock
    operation that cannot proceed leaves the goroutine waiting; unlocking a
    mutex that is not locked is a fatal error of the runtime. *)

Record RWMutex : Type := mkRWMutex { readers : nat; writer : bool }.

(** The zero value: an unlocked mutex. *)
Definition RWMutex_zero : RWMutex := mkRWMutex 0 false.

Definition RWMutex_RLock : M RWMutex unit :=
  fun l e =>
    if writer l then (Block, l, e)
    else (Ret tt, mkRWMutex (S (readers l)) (writer l), e).

Definition RWMutex_RUnlock : M RWMutex unit :=
  fun l e =>
    match readers l with
    | O => (Fatal, l, e)
    | S n => (Ret tt, mkRWMutex n (writer l), e)
    end.

Definition RWMutex_Lock : M RWMutex unit :=
  fun l e =>
    match readers l, writer l with
    | O, false => (Ret tt, mkRWMutex 0 true, e)
    | _, _ => (Block, l, e)
    end.

Definition RWMutex_Unlock : M RWMutex unit :=
  fun l e =>
    if writer l then (Ret tt, mkRWMutex (readers l) false, e)
    else (Fatal, l, e).

(** ** [Mem] *)

(** [type Mem struct { lock sync.RWMutex; val Timed }] *)
Record Mem : Type := mkMem { lock : RWMutex; val : Timed }.

(** [func NewMem(val Timed) *Mem] *)
Definition NewMem (v : Timed) : Mem := mkMem RWMutex_zero v.

(** Access to the fields of a [*Mem]. *)
Definition in_lock {A} (m : M RWMutex A) : M Mem A :=
  zoom lock (fun l s => mkMem l (val s)) m.
Definition in_val {A} (m : M Timed A) : M Mem A :=
  zoom val (fun v s => mkMem (lock s) v) m.

(** [func (self *Mem) GetTimed() Timed] *)
Definition Mem_GetTimed : M Mem Timed :=
  in_lock RWMutex_RLock ;;
  defer (in_lock RWMutex_RUnlock)
    (gets val).

(** [func (self *Mem) Get() interface{}] *)
Definition Mem_Get : M Mem value :=
  t <- Mem_GetTimed ;;
  lift (Either_Get (Timed_Either t)).

(** [func (self *Mem) SetTimed(val Timed)] *)
Definition Mem_SetTimed (v : Timed) : M Mem unit :=
  in_lock RWMutex_Lock ;;
  defer (in_lock RWMutex_Unlock)
    (modify (fun s => mkMem (lock s) v)).

(** [func (self *Mem) Zero()] *)
Definition Mem_Zero : M Mem unit := Mem_SetTimed Timed_zero.

(** [func (self *Mem) Dedup(get Getter, time Timer, exp Expirer) Timed] *)
Definition Mem_Dedup (get : Getter) (time : Timer) (exp : Expirer) : M Mem Timed :=
  v <- Mem_GetTimed ;;
  expired <- IsExpired exp v ;;
  if negb expired then ret v else
  in_lock RWMutex_Lock ;;
  defer (in_lock RWMutex_Unlock)
    (v <- gets val ;;
     expired <- IsExpired exp v ;;
     if negb expired then ret v else
     in_val (in_Either (Either_SetGetter get)) ;;
     in_val (Timed_SetTimer time) ;;
     gets val).

(** ** Ready-made capabilities *)

(** [type Duration time.Duration];
    [func (self Duration) IsExpired(val Timed) bool] *)
Definition Duration_IsExpired (self : time_Duration) (v : Timed) : method bool :=
  fun w =>
    let (now, w') := time_Now w in
    (Returns (time_After now (time_Add (Timed_Time v) self)), w').

(** [type Inst time.Time]; [func (self Inst) Time() time.Time] *)
Definition Inst_Time (self : time_Time) : method time_Time :=
  fun w => (Returns self, w).

(** [func (self Inst) IsExpired(val Timed) bool] *)
Definition Inst_IsExpired (self : time_Time) (v : Timed) : method bool :=
  fun w => (Returns (time_After (Timed_Time v) self), w).

(** [func (NowTimer) Time() time.Time] *)
Definition NowTimer_Time : method time_Time :=
  fun w => let (now, w') := time_Now w in (Returns now, w').

(** [func (NowExpirer) IsExpired(val Timed) bool] *)
Definition NowExpirer_IsExpired (v : Timed) : method bool :=
  fun w =>
    let (now, w') := time_Now w in
    (Returns (time_After now (Timed_Time v)), w').

(** [type GetterFunc func() interface{}];
    [func (self GetterFunc) Get() interface{}] *)
Definition GetterFunc_Get (self : option (method value)) : method value :=
  match self with
  | Some f => f
  | None => fun w => (Returns VNil, w)
  end.

(** [type TimerFunc func() time.Time];
    [func (self TimerFunc) Time() time.Time] *)
Definition TimerFunc_Time (self : option (method time_Time)) : method time_Time :=
  match self with
  | Some f => f
  | None => fun w => (Returns time_zero, w)
  end.

(** [type Void struct{}] *)
Definition Void_Get : method value := fun w => (Returns VNil, w).
Definition Void_Time : method time_Time := fun w => (Returns time_zero, w).
Definition Void_IsExpired (_ : Timed) : method bool := fun w => (Returns true, w).

(** [ExpireSecond], [ExpireMinute], [ExpireHour], [ExpireDay] *)
Definition ExpireSecond_IsExpired (v : Timed) : method bool :=
  Duration_IsExpired time_Second v.
Definition ExpireMinute_IsExpired (v : Timed) : method bool :=
  Duration_IsExpired time_Minute v.
Definition ExpireHour_IsExpired (v : Timed) : method bool :=
  Duration_IsExpired time_Hour v.
Definition ExpireDay_IsExpired (v : Timed) : method bool :=
  Duration_IsExpired (time_Hour * 24) v.

(** [Either] as a [Getter]: its method [Get] returns the payload or panics
    with the stored error. *)
Definition Either_as_Getter (self : Either) : Getter :=
  Some (fun w => (Either_Get self, w)).

(** [type BoolExpirer bool] of the tests:
    [func (self BoolExpirer) IsExpired(Timed) bool] *)
Definition BoolExpirer_IsExpired (self : bool) (_ : Timed) : method bool :=
  fun w => (Returns self, w).

(** ** Harnesses for repeated calls, after the package's tests *)

(** [n] calls of [tar.Get()] in a row, each guarded by a [recover]. *)
Fixpoint Get_times (n : nat) : M Either (list (result value value)) :=
  match n with
  | O => ret []
  | S k =>
      r <- attempt (call_on Either_Get) ;;
      rs <- Get_times k ;;
      ret (r :: rs)
  end.

(** [n] calls of [exp.IsExpired(timed)] in a row, through the nil-safe
    helper. *)
Fixpoint IsExpired_times {S} (n : nat) (exp : Expirer) (timed : Timed) : M S (list bool) :=
  match n with
  | O => ret []
  | S k =>
      b <- IsExpired exp timed ;;
      bs <- IsExpired_times k exp timed ;;
      ret (b :: bs)
  end.

(** [n] calls of [mem.Dedup(get, time, exp)] in a row. *)
Fixpoint Dedup_times (n : nat) (get : Getter) (time : Timer) (exp : Expirer) : M Mem (list Timed) :=
  match n with
  | O => ret []
  | S k =>
      v <- Mem_Dedup get time exp ;;
      vs <- Dedup_times k get time exp ;;
      ret (v :: vs)
  end.

(** Capabilities that return or panic with a fixed value and leave the
    world alone, as the getters, timers and expirers of the tests do. *)
Definition returning {A} (a : A) : method A := fun w => (Returns a, w).
Definition panicking {A} (v : value) : method A := fun w => (Panics v, w).

(** ** Goroutines: [Dedup] one step at a time

    Several goroutines call [Dedup] on one [*Mem].  A goroutine advances by
    atomic steps, each of them one of the operations of [Mem_Dedup] above;
    [pc] says where in the body of [Dedup] it stands.  A step that would
    wait on the mutex is not enabled.  The call of the getter takes two
    steps, its start and its completion, so that a call in progress is
    visible in the state. *)

Inductive pc : Type :=
| PStart                            (* in [GetTimed], before [RLock] *)
| PRLocked                          (* read lock held, before reading [self.val] *)
| PRead (v : Timed)                 (* snapshot taken, before [RUnlock] *)
| PCheck1 (v : Timed)               (* before the first [IsExpired(exp, val)] *)
| PLock                             (* before [self.lock.Lock()] *)
| PLocked                           (* write lock held, before [val = self.val] *)
| PCheck2 (v : Timed)               (* before the second [IsExpired(exp, val)] *)
| PGet                              (* before [self.val.SetGetter(get)] *)
| PGetting                          (* inside [SetGetter], the getter is running *)
| PTime                             (* before [self.val.SetTimer(time)] *)
| PResult                           (* before evaluating [return self.val] *)
| PReturn (r : result value Timed)  (* before the deferred [Unlock] *)
| PDone (r : result value Timed).   (* the call is over *)

(** Where a step leads when it ends normally with [a] ([k a]) or in a panic
    ([h]); no step when the goroutine has to wait. *)
Definition advance {A} (m : M Mem A) (k : A -> pc) (h : value -> pc)
    (mem : Mem) (e : env) : option (pc * Mem * env) :=
  match m mem e with
  | (Ret a, mem', e') => Some (k a, mem', e')
  | (Panic v, mem', e') => Some (h v, mem', e')
  | (Block, _, _) => None
  | (Fatal, _, _) => None
  end.

(** A panic outside the locked region ends the call; inside it, the
    deferred [Unlock] runs first. *)
Definition panic_out (v : value) : pc := PDone (Panics v).
Definition panic_locked (v : value) : pc := PReturn (Panics v).

Definition Dedup_step (get : Getter) (time : Timer) (exp : Expirer) (p : pc)
    : Mem -> env -> option (pc * Mem * env) :=
  match p with
  | PStart => advance (in_lock RWMutex_RLock) (fun _ => PRLocked) panic_out
  | PRLocked => advance (gets val) PRead panic_out
  | PRead v => advance (in_lock RWMutex_RUnlock) (fun _ => PCheck1 v) panic_out
  | PCheck1 v =>
      advance (IsExpired exp v)
        (fun expired => if negb expired then PDone (Returns v) else PLock)
        panic_out
  | PLock => advance (in_lock RWMutex_Lock) (fun _ => PLocked) panic_out
  | PLocked => advance (gets val) PCheck2 panic_locked
  | PCheck2 v =>
      advance (IsExpired exp v)
        (fun expired => if negb expired then PReturn (Returns v) else PGet)
        panic_locked
  | PGet =>
      match get with
      | None =>
          advance (in_val (in_Either (Either_SetGetter get)))
            (fun _ => PTime) panic_locked
      | Some _ => fun mem e => Some (PGetting, mem, e)
      end
  | PGetting =>
      advance (in_val (in_Either (Either_SetGetter get)))
        (fun _ => PTime) panic_locked
  | PTime => advance (in_val (Timed_SetTimer time)) (fun _ => PResult) panic_locked
  | PResult => advance (gets val) (fun v => PReturn (Returns v)) panic_locked
  | PReturn r => advance (in_lock RWMutex_Unlock) (fun _ => PDone r) panic_out
  | PDone _ => fun _ _ => None
  end.

(** A goroutine: the arguments of its call of [Dedup] and where it stands. *)
Record goroutine : Type := mkGo {
  go_get : Getter;
  go_time : Timer;
  go_exp : Expirer;
  go_pc : pc
}.

Definition at_pc (g : goroutine) (p : pc) : goroutine :=
  mkGo (go_get g) (go_time g) (go_exp g) p.

(** The shared cache, the world, and the goroutines that use the cache. *)
Record pool : Type := mkPool {
  pool_mem : Mem;
  pool_env : env;
  pool_gos : list goroutine
}.

(** One goroutine of the pool takes its next step. *)
Inductive step : pool -> pool -> Prop :=
| step_go l1 g l2 mem e p' mem' e' :
    Dedup_step (go_get g) (go_time g) (go_exp g) (go_pc g) mem e
      = Some (p', mem', e') ->
    step (mkPool mem e (l1 ++ g :: l2))
         (mkPool mem' e' (l1 ++ at_pc g p' :: l2)).

(** The pools that arise when goroutines start their calls on a cache whose
    mutex nobody holds. *)
Inductive reachable : pool -> Prop :=
| reachable_start v e gs :
    Forall (fun g => go_pc g = PStart) gs ->
    reachable (mkPool (NewMem v) e gs)
| reachable_step a b :
    reachable a -> step a b -> reachable b.

(** The getter of the goroutine is running. *)
Definition in_flight (g : goroutine) : bool :=
  match go_pc g with PGetting => true | _ => false end.

(** The goroutine is between [Lock] and [Unlock]. *)
Definition holds_write (g : goroutine) : bool :=
  match go_pc g with
  | PLocked | PCheck2 _ | PGet | PGetting | PTime | PResult | PReturn _ => true
  | _ => false
  end.

(** The goroutine is between [RLock] and [RUnlock]. *)
Definition holds_read (g : goroutine) : bool :=
  match go_pc g with
  | PRLocked | PRead _ => true
  | _ => false
  end.

Definition count (f : goroutine -> bool) (gs : list goroutine) : nat :=
  List.length (filter f gs).

(** A goroutine running alone: at most [fuel] steps, up to the end of its
    call. *)
Fixpoint run_alone (fuel : nat) (get : Getter) (time : Timer) (exp : Expirer)
    (p : pc) (mem : Mem) (e : env) : option (result value Timed * Mem * env) :=
  match p, fuel with
  | PDone r, _ => Some (r, mem, e)
  | _, O => None
  | _, S k =>
      match Dedup_step get time exp p mem e with
      | Some (p', mem', e') => run_alone k get time exp p' mem' e'
      | None => None
      end
  end.

(** The goroutine number [i] of the pool takes a step, if it can. *)
Fixpoint step_at (i : nat) (gs : list goroutine) (mem : Mem) (e : env)
    {struct gs} : option (list goroutine * Mem * env) :=
  match gs with
  | [] => None
  | g :: rest =>
      match i with
      | O =>
          match Dedup_step (go_get g) (go_time g) (go_exp g) (go_pc g) mem e with
          | Some (p', mem', e') => Some (at_pc g p' :: rest, mem', e')
          | None => None
          end
      | S j =>
          match step_at j rest mem e with
          | Some (rest', mem', e') => Some (g :: rest', mem', e')
          | None => None
          end
      end
  end.

(** The goroutines take steps in the order of the schedule [sched]. *)
Fixpoint run_schedule (sched : list nat) (q : pool) : option pool :=
  match sched with
  | [] => Some q
  | i :: rest =>
      match step_at i (pool_gos q) (pool_mem q) (pool_env q) with
      | Some (gs', mem', e') => run_schedule rest (mkPool mem' e' gs')
      | None => None
      end
  end.

(** The calls of getters in a log. *)
Definition is_CallGet (c : call) : bool :=
  match c with CallGet => true | _ => false end.

Definition getter_calls (e : env) : list call := filter is_CallGet (calls e).

(** What the mutex and the goroutines' positions have to agree on, and
    which goroutines hold a copy of the stored state that is still the
    stored state. *)
Definition lock_agrees (q : pool) : Prop :=
  let l := lock (pool_mem q) in
  count holds_write (pool_gos q) = (if writer l then 1 else 0)%nat /\
  count holds_read (pool_gos q) = readers l /\
  (writer l = true -> readers l = 0%nat).

Definition sees_stored (mem : Mem) (g : goroutine) : Prop :=
  match go_pc g with
  | PRead v | PCheck2 v | PReturn (Returns v) => v = val mem
  | _ => True
  end.

Definition invariant (q : pool) : Prop :=
  lock_agrees q /\ Forall (sees_stored (pool_mem q)) (pool_gos q).

(** ** The facade

    [type Omni interface { Getter; Timer; Expirer; Deduper }]: a value with
    the four methods; [S] is the object behind it. *)
Record Omni (S : Type) : Type := mkOmni {
  Omni_Get : method value;
  Omni_Time : method time_Time;
  Omni_IsExpired : Timed -> method bool;
  Omni_Dedup : Getter -> Timer -> Expirer -> M S Timed
}.
Arguments mkOmni {S}.
Arguments Omni_Get {S}.
Arguments Omni_Time {S}.
Arguments Omni_IsExpired {S}.
Arguments Omni_Dedup {S}.

(** [func Dedup(val Omni) Timed]: [val.Dedup(val, val, val)], or [Timed{}]
    for nil. *)
Definition Dedup {S} (val : option (Omni S)) : M S Timed :=
  match val with
  | Some o =>
      Omni_Dedup o (Some (Omni_Get o)) (Some (Omni_Time o))
                 (Some (Omni_IsExpired o))
  | None => ret Timed_zero
  end.

(** [type Worker struct { ded.ExpireMinute; ded.NowTimer; ded.Mem }] of the
    readme, with its own method [Get]; the object behind a [*Worker] is its
    [Mem], the other fields having no content. *)
Definition Worker (get : method value) : Omni Mem :=
  mkOmni get NowTimer_Time ExpireMinute_IsExpired Mem_Dedup.

(** [func (self *Worker) Fetch() ded.Timed] *)
Definition Worker_Fetch (get : method value) : M Mem Timed :=
  Dedup (Some (Worker get)).

(** ** Measures and predicates on pools *)

(** How many steps a call has before it at most. *)
Definition steps_left (p : pc) : nat :=
  match p with
  | PStart => 12
  | PRLocked => 11
  | PRead _ => 10
  | PCheck1 _ => 9
  | PLock => 8
  | PLocked => 7
  | PCheck2 _ => 6
  | PGet => 5
  | PGetting => 4
  | PTime => 3
  | PResult => 2
  | PReturn _ => 1
  | PDone _ => 0
  end.

Definition work_left (gs : list goroutine) : nat :=
  list_sum (map (fun g => steps_left (go_pc g)) gs).

(** The call of the goroutine is over. *)
Definition is_done (g : goroutine) : bool :=
  match go_pc g with PDone _ => true | _ => false end.

(** [n] steps of the pool, one after the other. *)
Inductive steps : nat -> pool -> pool -> Prop :=
| steps_none q : steps 0 q q
| steps_more n a b c : step a b -> steps n b c -> steps (S n) a c.

(** The goroutine is in [SetGetter], before or during the call of the
    getter; it is before [SetTimer]. *)
Definition at_get (g : goroutine) : bool :=
  match go_pc g with PGet | PGetting => true | _ => false end.

Definition at_time (g : goroutine) : bool :=
  match go_pc g with PTime => true | _ => false end.

(** The goroutine calls [Dedup] with some getter, the timer [Inst(j)] and
    the expirer [Inst(i)]. *)
Definition uses_Inst (i j : time_Time) (g : goroutine) : Prop :=
  go_get g <> None /\
  go_time g = Some (Inst_Time j) /\
  go_exp g = Some (Inst_IsExpired i).

(** How far the one refresh has come, when the cache starts with the state
    [v0] and every goroutine [uses_Inst i j] with [j <= i].  While the
    stored timestamp is after [i], so was that of [v0], and either no
    getter has been called and nobody is before [SetTimer], or one getter
    has been called and its goroutine is before [SetTimer].  Once the
    stored timestamp is not after [i], nobody is in [SetGetter] or before
    [SetTimer]; then either [v0] was stamped after [i], one getter has been
    called and the stored timestamp is [j], or no getter has been called
    and [v0] is still stored. *)
Definition once (i j : time_Time) (v0 : Timed) (q : pool) : Prop :=
  let c := List.length (getter_calls (pool_env q)) in
  let a := count at_get (pool_gos q) in
  let t := count at_time (pool_gos q) in
  let stored := val (pool_mem q) in
  if i <? Timed_Time stored
  then i < Timed_Time v0 /\
       ((c = 0 /\ t = 0)%nat \/ (c = 1 /\ t = 1 /\ a = 0)%nat)
  else (a = 0 /\ t = 0)%nat /\
       if i <? Timed_Time v0
       then c = 1%nat /\ Timed_Time stored = j
       else c = 0%nat /\ stored = v0.

(** What a goroutine knows, under the same conditions: a result is the
    stored state, whose timestamp is not after [i]; a snapshot about to be
    checked is the stored state or is stamped after [i]. *)
Definition settled (i : time_Time) (mem : Mem) (g : goroutine) : Prop :=
  match go_pc g with
  | PDone r | PReturn r => r = Returns (val mem) /\ Timed_Time (val mem) <= i
  | PResult => Timed_Time (val mem) <= i
  | PCheck1 v => v = val mem \/ i < Timed_Time v
  | _ => True
  end.

Definition once_invariant (i j : time_Time) (v0 : Timed) (q : pool) : Prop :=
  invariant q /\ once i j v0 q /\
  Forall (settled i (pool_mem q)) (pool_gos q) /\
  Forall (uses_Inst i j) (pool_gos q).

(** The call has not ended in [panic(nil)], which [recover] cannot tell
    from no panic at all. *)
Definition not_nil_panic {A} (r : result value A) : Prop :=
  match r with
  | Panics VNil => False
  | _ => True
  end.

(** * Properties *)

(** ** Running a sequence *)

Lemma bind_Ret {S A B} (m : M S A) (k : A -> M S B) s e a s' e' :
  m s e = (Ret a, s', e') -> bind m k s e = k a s' e'.
Proof. intros H. unfold bind. now rewrite H. Qed.

Lemma bind_Panic {S A B} (m : M S A) (k : A -> M S B) s e v s' e' :
  m s e = (Panic v, s', e') -> bind m k s e = (Panic v, s', e').
Proof. intros H. unfold bind. now rewrite H. Qed.

Lemma defer_Ret {S A} (d : M S unit) (body : M S A) s e a s' e' s'' e'' :
  body s e = (Ret a, s', e') ->
  d s' e' = (Ret tt, s'', e'') ->
  defer d body s e = (Ret a, s'', e'').
Proof. intros H1 H2. unfold defer. now rewrite H1, H2. Qed.

Lemma defer_Panic {S A} (d : M S unit) (body : M S A) s e v s' e' s'' e'' :
  body s e = (Panic v, s', e') ->
  d s' e' = (Ret tt, s'', e'') ->
  defer d body s e = (Panic v, s'', e'').
Proof. intros H1 H2. unfold defer. now rewrite H1, H2. Qed.

Lemma in_lock_Lock (v : Timed) (e : env) :
  in_lock RWMutex_Lock (mkMem RWMutex_zero v) e
  = (Ret tt, mkMem (mkRWMutex 0 true) v, e).
Proof. reflexivity. Qed.

Lemma in_lock_Unlock (n : nat) (v : Timed) (e : env) :
  in_lock RWMutex_Unlock (mkMem (mkRWMutex n true) v) e
  = (Ret tt, mkMem (mkRWMutex n false) v, e).
Proof. reflexivity. Qed.

(** ** The result container *)

Lemma Either_Unwrap_error msg :
  Either_Unwrap (mkEither (VErr msg)) = (VNil, Some msg).
Proof. reflexivity. Qed.

Lemma Either_Unwrap_plain v :
  as_error v = None -> Either_Unwrap (mkEither v) = (v, None).
Proof. intros H. unfold Either_Unwrap. simpl. now rewrite H. Qed.

Lemma Either_Get_error msg :
  Either_Get (mkEither (VErr msg)) = Panics (VErr msg).
Proof. reflexivity. Qed.

Lemma Either_Get_plain v :
  as_error v = None -> Either_Get (mkEither v) = Returns v.
Proof. intros H. unfold Either_Get. now rewrite Either_Unwrap_plain. Qed.

Lemma Either_rec_nil self e :
  Either_rec VNil self e = (Ret tt, self, e).
Proof. reflexivity. Qed.

Lemma Either_rec_not_nil v self e :
  not_nil v = true -> Either_rec v self e = (Ret tt, mkEither v, e).
Proof. intros H. unfold Either_rec. now rewrite H. Qed.

(** What [SetGetter] does, by the behaviour of the getter. *)
Lemma Either_SetGetter_nil self e :
  Either_SetGetter None self e = (Ret tt, mkEither VNil, e).
Proof. reflexivity. Qed.

Lemma Either_SetGetter_returns g self e v w' :
  g (world e) = (Returns v, w') ->
  Either_SetGetter (Some g) self e
  = (Ret tt, mkEither v, mkEnv w' (calls e ++ [CallGet])).
Proof.
  intros H. unfold Either_SetGetter, defer_recover, bind, invoke.
  rewrite H. reflexivity.
Qed.

Lemma Either_SetGetter_panics g self e v w' :
  g (world e) = (Panics v, w') ->
  Either_SetGetter (Some g) self e
  = (Ret tt, if not_nil v then mkEither v else self,
     mkEnv w' (calls e ++ [CallGet])).
Proof.
  intros H. unfold Either_SetGetter, defer_recover, bind, invoke.
  rewrite H. simpl. unfold Either_rec. destruct (not_nil v); reflexivity.
Qed.

Lemma Either_SetGetter_total val self e :
  exists self' e', Either_SetGetter val self e = (Ret tt, self', e').
Proof.
  destruct val as [g|].
  - destruct (g (world e)) as [[v|v] w'] eqn:H.
    + rewrite (Either_SetGetter_returns _ _ _ _ _ H). eauto.
    + rewrite (Either_SetGetter_panics _ _ _ _ _ H). eauto.
  - rewrite Either_SetGetter_nil. eauto.
Qed.

Lemma Get_times_error msg n e :
  Get_times n (mkEither (VErr msg)) e
  = (Ret (repeat (Panics (VErr msg)) n), mkEither (VErr msg), e).
Proof.
  induction n as [|n IH]; [reflexivity|].
  simpl. unfold bind at 1. unfold attempt, call_on. simpl.
  unfold bind at 1. rewrite IH. reflexivity.
Qed.

(** C4: a producer that panics with the error [msg] leaves that error in the
    container; [Get] on the container then panics with exactly that error,
    and so does every later [Get] (any number of them, the container
    staying as it is); once [Set] overwrites the payload, [Get] follows the
    new payload. *)
Theorem C4_failure_round_trip
    (g : method value) (self : Either) (e : env) (msg : string) (w' : W) :
  g (world e) = (Panics (VErr msg), w') ->
  let tar := mkEither (VErr msg) in
  Either_SetGetter (Some g) self e
    = (Ret tt, tar, mkEnv w' (calls e ++ [CallGet])) /\
  Either_Get tar = Panics (VErr msg) /\
  (forall n e1,
     Get_times n tar e1 = (Ret (repeat (Panics (VErr msg)) n), tar, e1)) /\
  (forall v e1,
     as_error v = None ->
     (Either_Set v ;; call_on Either_Get) tar e1 = (Ret v, mkEither v, e1)).
Proof.
  intros H tar. repeat split.
  - now rewrite (Either_SetGetter_panics _ _ _ _ _ H).
  - intros n e1. apply Get_times_error.
  - intros v e1 Hv. unfold bind, Either_Set, modify, call_on. simpl.
    now rewrite (Either_Get_plain _ Hv).
Qed.

(** C5: [SetGetter] returns normally whatever the getter is and does; a
    getter that panics with an error leaves the container and the world
    exactly as a getter that returns that error does; a nil getter stores
    nil. *)
Theorem C5_SetGetter_never_raises (val : Getter) (self : Either) (e : env) :
  (exists self' e', Either_SetGetter val self e = (Ret tt, self', e')) /\
  (forall g g' msg w',
     val = Some g ->
     g (world e) = (Panics (VErr msg), w') ->
     g' (world e) = (Returns (VErr msg), w') ->
     Either_SetGetter val self e
       = (Ret tt, mkEither (VErr msg), mkEnv w' (calls e ++ [CallGet])) /\
     Either_SetGetter val self e = Either_SetGetter (Some g') self e) /\
  (val = None -> Either_SetGetter val self e = (Ret tt, mkEither VNil, e)).
Proof.
  split; [apply Either_SetGetter_total|]. split.
  - intros g g' msg w' -> Hg Hg'.
    rewrite (Either_SetGetter_panics _ _ _ _ _ Hg).
    rewrite (Either_SetGetter_returns _ _ _ _ _ Hg'). split; reflexivity.
  - intros ->. reflexivity.
Qed.

(** ** The timestamped result *)

Lemma Timed_SetTimer_nil t e :
  Timed_SetTimer None t e = (Ret tt, mkTimed (Timed_Either t) time_zero, e).
Proof. reflexivity. Qed.

Lemma Timed_SetTimer_returns c t e inst w' :
  c (world e) = (Returns inst, w') ->
  Timed_SetTimer (Some c) t e
  = (Ret tt, mkTimed (Timed_Either t) inst, mkEnv w' (calls e ++ [CallTime])).
Proof.
  intros H. unfold Timed_SetTimer, defer_recover, bind, invoke.
  rewrite H. simpl. destruct t; reflexivity.
Qed.

Lemma Timed_SetTimer_panics c t e v w' :
  c (world e) = (Panics v, w') ->
  Timed_SetTimer (Some c) t e
  = (Ret tt,
     mkTimed (if not_nil v then mkEither v else Timed_Either t) (Timed_Time t),
     mkEnv w' (calls e ++ [CallTime])).
Proof.
  intros H. unfold Timed_SetTimer, defer_recover, bind, invoke.
  rewrite H. simpl. unfold in_Either, zoom, Either_rec.
  destruct (not_nil v); reflexivity.
Qed.

Lemma Timed_SetTimer_total c t e :
  exists t' e', Timed_SetTimer c t e = (Ret tt, t', e').
Proof.
  destruct c as [c|].
  - destruct (c (world e)) as [[v|v] w'] eqn:H.
    + rewrite (Timed_SetTimer_returns _ _ _ _ _ H). eauto.
    + rewrite (Timed_SetTimer_panics _ _ _ _ _ H). eauto.
  - rewrite Timed_SetTimer_nil. eauto.
Qed.

Lemma in_Either_SetGetter_Time get t e r t' e' :
  in_Either (Either_SetGetter get) t e = (r, t', e') ->
  r = Ret tt /\ Timed_Time t' = Timed_Time t.
Proof.
  unfold in_Either, zoom.
  destruct (Either_SetGetter_total get (Timed_Either t) e) as (x & e1 & ->).
  intros [= <- <- <-]. split; reflexivity.
Qed.

(** C3: when the clock panics with a value [v] that is not nil (every error
    is such a value), [SetTimer] returns normally, the value slot holds [v]
    whatever it held before, and the timestamp is the one from before the
    call; in particular, run right after [SetGetter], it overwrites the
    value that the getter has just produced. *)
Theorem C3_clock_failure_goes_to_value_slot
    (c : method time_Time) (t : Timed) (e : env) (v : value) (w' : W) :
  c (world e) = (Panics v, w') ->
  not_nil v = true ->
  Timed_SetTimer (Some c) t e
    = (Ret tt, mkTimed (mkEither v) (Timed_Time t),
       mkEnv w' (calls e ++ [CallTime])) /\
  (forall get t0 e0,
     in_Either (Either_SetGetter get) t0 e0 = (Ret tt, t, e) ->
     (in_Either (Either_SetGetter get) ;; Timed_SetTimer (Some c)) t0 e0
       = (Ret tt, mkTimed (mkEither v) (Timed_Time t0),
          mkEnv w' (calls e ++ [CallTime]))).
Proof.
  intros Hc Hv.
  assert (Hset : Timed_SetTimer (Some c) t e
                 = (Ret tt, mkTimed (mkEither v) (Timed_Time t),
                    mkEnv w' (calls e ++ [CallTime]))).
  { rewrite (Timed_SetTimer_panics _ _ _ _ _ Hc). now rewrite Hv. }
  split; [exact Hset|].
  intros get t0 e0 H0. unfold bind at 1. rewrite H0, Hset.
  apply in_Either_SetGetter_Time in H0. destruct H0 as [_ ->]. reflexivity.
Qed.

(** ** Nil capabilities *)

(** C9: for a getter [g] that is not nil, the helper [Get] returns [g]
    itself, boxed, and makes no call: the world and the log of calls stay
    as they are, whatever [g.Get()] would do; its result is nil exactly
    when the getter is nil. *)
Theorem C9_Get_returns_the_getter {S} (val : Getter) (s : S) (e : env) :
  (forall g, val = Some g -> Get val s e = (Ret (VGetter g), s, e)) /\
  (Get val s e = (Ret VNil, s, e) <-> val = None).
Proof.
  split.
  - intros g ->. reflexivity.
  - destruct val as [g|]; simpl; unfold ret; split;
      try reflexivity; discriminate.
Qed.

(** C6: a nil getter gives the nil value, which [Get] returns without a
    panic; a nil timer gives the zero timestamp; with a nil expirer every
    state counts as expired, and no call is made in any of the three. *)
Theorem C6_nil_capabilities {S} (self : Either) (t : Timed) (s : S) (e : env) :
  Either_SetGetter None self e = (Ret tt, mkEither VNil, e) /\
  Either_Get (mkEither VNil) = Returns VNil /\
  Timed_SetTimer None t e = (Ret tt, mkTimed (Timed_Either t) time_zero, e) /\
  Time None s e = (Ret time_zero, s, e) /\
  IsExpired None t s e = (Ret true, s, e).
Proof. repeat split. Qed.

(** ** The cache engine *)

Lemma IsExpired_frame {S} (exp : Expirer) (t : Timed) (s : S) (e : env) :
  IsExpired exp t s e
  = (fst (fst (IsExpired exp t tt e)), s, snd (IsExpired exp t tt e)).
Proof.
  destruct exp as [p|]; [|reflexivity].
  unfold IsExpired, invoke.
  destruct (p t (world e)) as [[b|v] w']; reflexivity.
Qed.

Lemma IsExpired_run {S} (exp : Expirer) (t : Timed) (s : S) (e e' : env) r :
  IsExpired exp t tt e = (r, tt, e') ->
  IsExpired exp t s e = (r, s, e').
Proof. intros H. rewrite IsExpired_frame, H. reflexivity. Qed.

Lemma IsExpired_false_calls (exp : Expirer) (t : Timed) (e e' : env) :
  IsExpired exp t tt e = (Ret false, tt, e') ->
  calls e' = calls e ++ [CallIsExpired t].
Proof.
  destruct exp as [p|]; [|discriminate].
  unfold IsExpired, invoke.
  destruct (p t (world e)) as [[b|v] w']; simpl; intros [= _ <-].
  reflexivity.
Qed.

Lemma Mem_GetTimed_run (l : RWMutex) (v : Timed) (e : env) :
  writer l = false ->
  Mem_GetTimed (mkMem l v) e = (Ret v, mkMem l v, e).
Proof.
  intros H. destruct l as [n b]. simpl in H. rewrite H. reflexivity.
Qed.

(** A call that finds the state fresh at the first check. *)
Lemma Mem_Dedup_fresh get time exp (l : RWMutex) (v : Timed) (e e1 : env) :
  writer l = false ->
  IsExpired exp v tt e = (Ret false, tt, e1) ->
  Mem_Dedup get time exp (mkMem l v) e = (Ret v, mkMem l v, e1).
Proof.
  intros Hl H. unfold Mem_Dedup.
  erewrite bind_Ret by (apply Mem_GetTimed_run, Hl).
  erewrite bind_Ret by (apply IsExpired_run, H). reflexivity.
Qed.

(** A call on a cache whose mutex a writer holds waits in [RLock]. *)
Lemma Mem_Dedup_waits get time exp (l : RWMutex) (v : Timed) (e : env) :
  writer l = true ->
  Mem_Dedup get time exp (mkMem l v) e = (Block, mkMem l v, e).
Proof.
  intros Hl. destruct l as [n b]. simpl in Hl. rewrite Hl. reflexivity.
Qed.

(** C1: on a cache whose mutex no writer holds (a call waits for a
    writer), while the expirer reports the stored state [v] as not expired,
    [Dedup] returns [v], leaves [v] stored and the mutex as it was, and
    calls nothing but the expirer: the world and the log of calls after the
    call are those after the expirer's answer alone.  The same holds for
    any number [n] of calls in a row: each returns [v]. *)
Theorem C1_fresh_read_is_idempotent
    (get : Getter) (time : Timer) (exp : Expirer) (l : RWMutex) (v : Timed) :
  writer l = false ->
  (forall e e1,
     IsExpired exp v tt e = (Ret false, tt, e1) ->
     Mem_Dedup get time exp (mkMem l v) e = (Ret v, mkMem l v, e1) /\
     calls e1 = calls e ++ [CallIsExpired v]) /\
  (forall n e en,
     IsExpired_times n exp v tt e = (Ret (repeat false n), tt, en) ->
     Dedup_times n get time exp (mkMem l v) e
       = (Ret (repeat v n), mkMem l v, en) /\
     calls en = calls e ++ repeat (CallIsExpired v) n).
Proof.
  intros Hl. split.
  - intros e e1 H. split.
    + now apply Mem_Dedup_fresh.
    + exact (IsExpired_false_calls exp v e e1 H).
  - induction n as [|n IH]; intros e en H.
    + simpl in H. injection H as <-. simpl. rewrite app_nil_r. now split.
    + simpl in H. unfold bind at 1 in H.
      destruct (IsExpired exp v tt e) as [[r []] e1] eqn:H1.
      destruct r as [b| | |]; try discriminate.
      unfold bind at 1 in H.
      destruct (IsExpired_times n exp v tt e1) as [[rs []] e2] eqn:H2.
      destruct rs as [bs| | |]; try discriminate.
      unfold ret in H. injection H as Hb Hbs <-. subst b bs.
      destruct (IH _ _ H2) as [IH1 IH2].
      simpl. unfold bind at 1.
      rewrite (Mem_Dedup_fresh get time exp l v e e1 Hl H1).
      unfold bind at 1. rewrite IH1. split; [reflexivity|].
      rewrite IH2, (IsExpired_false_calls exp v e e1 H1), <- app_assoc.
      reflexivity.
Qed.

(** A call that finds the state expired at both checks. *)
Lemma Mem_Dedup_refresh get time exp (v : Timed) (e e1 e2 e3 e4 : env) x v' :
  IsExpired exp v tt e = (Ret true, tt, e1) ->
  IsExpired exp v tt e1 = (Ret true, tt, e2) ->
  Either_SetGetter get (Timed_Either v) e2 = (Ret tt, x, e3) ->
  Timed_SetTimer time (mkTimed x (Timed_Time v)) e3 = (Ret tt, v', e4) ->
  Mem_Dedup get time exp (NewMem v) e = (Ret v', NewMem v', e4).
Proof.
  intros H1 H2 Hg Ht. unfold Mem_Dedup, NewMem.
  erewrite bind_Ret by (apply Mem_GetTimed_run; reflexivity).
  erewrite bind_Ret by (apply IsExpired_run, H1). cbv beta. cbn [negb]. cbv iota.
  erewrite bind_Ret by apply in_lock_Lock.
  eapply defer_Ret; [|apply in_lock_Unlock].
  erewrite bind_Ret by reflexivity. cbv beta. simpl val.
  erewrite bind_Ret by (apply IsExpired_run, H2). cbv beta. cbn [negb]. cbv iota.
  erewrite bind_Ret
    by (unfold in_val, in_Either, zoom; simpl; rewrite Hg; reflexivity).
  erewrite bind_Ret
    by (unfold in_val, zoom; simpl; rewrite Ht; reflexivity).
  reflexivity.
Qed.

Lemma Either_SetGetter_calls get self e r self' e' :
  Either_SetGetter get self e = (r, self', e') ->
  calls e' = calls e ++ match get with Some _ => [CallGet] | None => [] end.
Proof.
  destruct get as [g|].
  - destruct (g (world e)) as [[v|v] w'] eqn:H.
    + rewrite (Either_SetGetter_returns _ _ _ _ _ H). now intros [= _ _ <-].
    + rewrite (Either_SetGetter_panics _ _ _ _ _ H). now intros [= _ _ <-].
  - rewrite Either_SetGetter_nil. intros [= _ _ <-]. now rewrite app_nil_r.
Qed.

Lemma Timed_SetTimer_calls time t e r t' e' :
  Timed_SetTimer time t e = (r, t', e') ->
  calls e' = calls e ++ match time with Some _ => [CallTime] | None => [] end.
Proof.
  destruct time as [c|].
  - destruct (c (world e)) as [[v|v] w'] eqn:H.
    + rewrite (Timed_SetTimer_returns _ _ _ _ _ H). now intros [= _ _ <-].
    + rewrite (Timed_SetTimer_panics _ _ _ _ _ H). now intros [= _ _ <-].
  - rewrite Timed_SetTimer_nil. intros [= _ _ <-]. now rewrite app_nil_r.
Qed.

(** C2: when the expirer reports the stored state [v] expired at the first
    check and again at the check under the write lock, [Dedup] runs
    [SetGetter] on the stored container, then [SetTimer] on the stored
    state so obtained, both returning normally, and returns the stored
    state that results; the getter is called before the timer.  From the
    empty cache, with a getter that returns "v1", the timer [Inst(T1)] and
    an expirer that always says expired, the result's [Get] returns "v1"
    and its timestamp is [T1]. *)
Theorem C2_refresh_sets_value_then_timestamp
    (get : Getter) (time : Timer) (exp : Expirer) (v : Timed) (e e1 e2 : env) :
  IsExpired exp v tt e = (Ret true, tt, e1) ->
  IsExpired exp v tt e1 = (Ret true, tt, e2) ->
  (exists x e3 v' e4,
     Either_SetGetter get (Timed_Either v) e2 = (Ret tt, x, e3) /\
     Timed_SetTimer time (mkTimed x (Timed_Time v)) e3 = (Ret tt, v', e4) /\
     Mem_Dedup get time exp (NewMem v) e = (Ret v', NewMem v', e4) /\
     calls e4 = calls e2
                ++ match get with Some _ => [CallGet] | None => [] end
                ++ match time with Some _ => [CallTime] | None => [] end) /\
  (forall (T1 : time_Time) (w : W),
     let r := MakeTimed (VStr "v1") T1 in
     Mem_Dedup (Either_as_Getter (mkEither (VStr "v1"))) (Some (Inst_Time T1))
               (Some Void_IsExpired) (NewMem Timed_zero) (mkEnv w [])
       = (Ret r, NewMem r,
          mkEnv w [CallIsExpired Timed_zero; CallIsExpired Timed_zero;
                   CallGet; CallTime]) /\
     Either_Get (Timed_Either r) = Returns (VStr "v1") /\
     Timed_Time r = T1).
Proof.
  intros H1 H2. split.
  - destruct (Either_SetGetter_total get (Timed_Either v) e2) as (x & e3 & Hg).
    destruct (Timed_SetTimer_total time (mkTimed x (Timed_Time v)) e3)
      as (v' & e4 & Ht).
    exists x, e3, v', e4. repeat split; try assumption.
    + exact (Mem_Dedup_refresh _ _ _ _ _ _ _ _ _ _ _ H1 H2 Hg Ht).
    + rewrite (Timed_SetTimer_calls _ _ _ _ _ _ Ht).
      rewrite (Either_SetGetter_calls _ _ _ _ _ _ Hg).
      now rewrite app_assoc.
  - intros T1 w r. repeat split.
Qed.

Lemma Mem_Dedup_panic_first get time exp (l : RWMutex) (v : Timed) p (e e1 : env) :
  writer l = false ->
  IsExpired exp v tt e = (Panic p, tt, e1) ->
  Mem_Dedup get time exp (mkMem l v) e = (Panic p, mkMem l v, e1).
Proof.
  intros Hl H. unfold Mem_Dedup.
  erewrite bind_Ret by (apply Mem_GetTimed_run, Hl).
  erewrite bind_Panic by (apply IsExpired_run, H). reflexivity.
Qed.

Lemma Mem_Dedup_second get time exp (v : Timed) (e e1 e2 : env) r :
  IsExpired exp v tt e = (Ret true, tt, e1) ->
  IsExpired exp v tt e1 = (r, tt, e2) ->
  r = Ret false \/ (exists p, r = Panic p) ->
  Mem_Dedup get time exp (NewMem v) e
  = (match r with Ret _ => Ret v | Panic p => Panic p | _ => Fatal end,
     NewMem v, e2).
Proof.
  intros H1 H2 Hr. unfold Mem_Dedup, NewMem.
  erewrite bind_Ret by (apply Mem_GetTimed_run; reflexivity).
  erewrite bind_Ret by (apply IsExpired_run, H1). cbv beta. cbn [negb]. cbv iota.
  erewrite bind_Ret by apply in_lock_Lock.
  destruct Hr as [->|[p ->]].
  - eapply defer_Ret; [|apply in_lock_Unlock].
    erewrite bind_Ret by reflexivity. cbv beta. simpl val.
    erewrite bind_Ret by (apply IsExpired_run, H2). reflexivity.
  - eapply defer_Panic; [|apply in_lock_Unlock].
    erewrite bind_Ret by reflexivity. cbv beta. simpl val.
    erewrite bind_Panic by (apply IsExpired_run, H2). reflexivity.
Qed.

(** C10: a panic of the expirer, at the first check or at the check under
    the write lock, is the outcome of [Dedup] itself; the stored state is
    the one from before the call, the mutex is released, and neither the
    getter nor the timer is called. *)
Theorem C10_expirer_panic_propagates
    (get : Getter) (time : Timer) (exp : Expirer) (v : Timed) (p : value)
    (e e1 e2 : env) :
  (forall l,
     writer l = false ->
     IsExpired exp v tt e = (Panic p, tt, e1) ->
     Mem_Dedup get time exp (mkMem l v) e = (Panic p, mkMem l v, e1)) /\
  (IsExpired exp v tt e = (Ret true, tt, e1) ->
   IsExpired exp v tt e1 = (Panic p, tt, e2) ->
   Mem_Dedup get time exp (NewMem v) e = (Panic p, NewMem v, e2)).
Proof.
  split.
  - intros l Hl H. now apply Mem_Dedup_panic_first.
  - intros H1 H2.
    rewrite (Mem_Dedup_second get time exp v e e1 e2 _ H1 H2) by eauto.
    reflexivity.
Qed.

(** ** Expirers *)

(** What the expirer [Duration(d)] answers. *)
Lemma Duration_IsExpired_run (d : time_Duration) (v : Timed) (w : W) :
  Duration_IsExpired d v w
  = (Returns (Timed_Time v + d <? fst (time_Now w)), snd (time_Now w)).
Proof.
  unfold Duration_IsExpired, time_After, time_Add.
  destruct (time_Now w). reflexivity.
Qed.

(** C7, as the code has it: [Duration(d)] reports the state expired exactly
    when the current time is strictly after its timestamp plus [d]; for a
    negative [d] the state is fresh exactly when its timestamp lies in the
    future by at least [|d|], so only timestamps strictly in the future are
    fresh. *)
Theorem C7_Duration_expiry (d : time_Duration) (v : Timed) (w : W) :
  let now := fst (time_Now w) in
  exists expired,
    Duration_IsExpired d v w = (Returns expired, snd (time_Now w)) /\
    (expired = true <-> Timed_Time v + d < now) /\
    (d < 0 -> (expired = false <-> now + Z.abs d <= Timed_Time v)) /\
    (d < 0 -> expired = false -> now < Timed_Time v).
Proof.
  intros now. exists (Timed_Time v + d <? now). split; [|split; [|split]].
  - apply Duration_IsExpired_run.
  - apply Z.ltb_lt.
  - intros Hd. rewrite Z.ltb_ge. lia.
  - intros Hd H. apply Z.ltb_ge in H. lia.
Qed.

(** ** Goroutines *)

Lemma count_app f l1 g l2 :
  count f (l1 ++ g :: l2)
  = (count f l1 + (if f g then 1 else 0) + count f l2)%nat.
Proof.
  unfold count. rewrite filter_app, length_app. simpl.
  destruct (f g); simpl; lia.
Qed.

Lemma count_zero f l :
  count f l = 0%nat -> Forall (fun g => f g = false) l.
Proof.
  unfold count. induction l as [|g l IH]; simpl; [constructor|].
  destruct (f g) eqn:E; simpl; [discriminate|].
  intros H. constructor; auto.
Qed.

Lemma advance_inv {A} (m : M Mem A) k h mem e p' mem' e' :
  advance m k h mem e = Some (p', mem', e') ->
  (exists a, m mem e = (Ret a, mem', e') /\ p' = k a) \/
  (exists x, m mem e = (Panic x, mem', e') /\ p' = h x).
Proof.
  unfold advance. destruct (m mem e) as [[[a|x| |] m1] e1]; try discriminate.
  - intros [= <- <- <-]. left. eauto.
  - intros [= <- <- <-]. right. eauto.
Qed.

(** What a step of each kind does to the cache. *)
Lemma RLock_step k h mem e p' mem' e' :
  advance (in_lock RWMutex_RLock) k h mem e = Some (p', mem', e') ->
  p' = k tt /\ writer (lock mem) = false /\ val mem' = val mem /\
  lock mem' = mkRWMutex (S (readers (lock mem))) false.
Proof.
  unfold advance, in_lock, zoom, RWMutex_RLock.
  destruct (writer (lock mem)); [discriminate|].
  intros [= <- <- _]. auto.
Qed.

Lemma RUnlock_step k h mem e p' mem' e' :
  advance (in_lock RWMutex_RUnlock) k h mem e = Some (p', mem', e') ->
  p' = k tt /\ val mem' = val mem /\
  readers (lock mem) = S (readers (lock mem')) /\
  writer (lock mem') = writer (lock mem).
Proof.
  unfold advance, in_lock, zoom, RWMutex_RUnlock.
  destruct (readers (lock mem)); [discriminate|].
  intros [= <- <- _]. auto.
Qed.

Lemma Lock_step k h mem e p' mem' e' :
  advance (in_lock RWMutex_Lock) k h mem e = Some (p', mem', e') ->
  p' = k tt /\ val mem' = val mem /\
  readers (lock mem) = 0%nat /\ writer (lock mem) = false /\
  lock mem' = mkRWMutex 0 true.
Proof.
  unfold advance, in_lock, zoom, RWMutex_Lock.
  destruct (readers (lock mem)); [|discriminate].
  destruct (writer (lock mem)); [discriminate|].
  intros [= <- <- _]. auto.
Qed.

Lemma Unlock_step k h mem e p' mem' e' :
  advance (in_lock RWMutex_Unlock) k h mem e = Some (p', mem', e') ->
  p' = k tt /\ val mem' = val mem /\
  writer (lock mem) = true /\
  lock mem' = mkRWMutex (readers (lock mem)) false.
Proof.
  unfold advance, in_lock, zoom, RWMutex_Unlock.
  destruct (writer (lock mem)); [|discriminate].
  intros [= <- <- _]. auto.
Qed.

Lemma gets_val_step k h mem e p' mem' e' :
  advance (gets val) k h mem e = Some (p', mem', e') ->
  p' = k (val mem) /\ mem' = mem.
Proof. unfold advance, gets. intros [= <- <- _]. auto. Qed.

Lemma IsExpired_step exp v k h (mem : Mem) e p' mem' e' :
  advance (IsExpired exp v) k h mem e = Some (p', mem', e') ->
  mem' = mem /\ ((exists b, p' = k b) \/ (exists x, p' = h x)).
Proof.
  intros H. apply advance_inv in H.
  rewrite IsExpired_frame in H.
  destruct H as [(b & [= _ <- _] & ->) | (x & [= _ <- _] & ->)]; eauto.
Qed.

Lemma in_val_step {A} (m : M Timed A) k h mem e p' mem' e' :
  advance (in_val m) k h mem e = Some (p', mem', e') ->
  lock mem' = lock mem /\ ((exists a, p' = k a) \/ (exists x, p' = h x)).
Proof.
  intros H. apply advance_inv in H. unfold in_val, zoom in H.
  destruct (m (val mem) e) as [[r t] e1].
  destruct H as [(b & [= _ <- _] & ->) | (x & [= _ <- _] & ->)]; eauto.
Qed.

Lemma sees_stored_val mem mem' g :
  val mem' = val mem -> sees_stored mem g -> sees_stored mem' g.
Proof. unfold sees_stored. intros ->. auto. Qed.

Lemma sees_stored_idle mem g :
  holds_write g = false -> holds_read g = false -> sees_stored mem g.
Proof.
  unfold holds_write, holds_read, sees_stored.
  destruct (go_pc g) as [| | | | | | | | | | |[]|]; intros;
    try discriminate; exact I.
Qed.

Lemma Forall_sees_stored_val mem mem' l :
  val mem' = val mem ->
  Forall (sees_stored mem) l -> Forall (sees_stored mem') l.
Proof.
  intros H. apply Forall_impl. intros g. now apply sees_stored_val.
Qed.

Lemma Forall_sees_stored_idle mem l :
  count holds_write l = 0%nat -> count holds_read l = 0%nat ->
  Forall (sees_stored mem) l.
Proof.
  intros Hw Hr. apply count_zero in Hw, Hr.
  rewrite Forall_forall in *. intros g Hg.
  apply sees_stored_idle; auto.
Qed.

Lemma Forall_insert {A} (P : A -> Prop) l1 x l2 :
  Forall P l1 -> P x -> Forall P l2 -> Forall P (l1 ++ x :: l2).
Proof. intros. apply Forall_app. split; [|constructor]; assumption. Qed.

Ltac insert_go :=
  apply Forall_insert;
  [ assumption
  | unfold sees_stored; simpl; solve [exact I | reflexivity | congruence]
  | assumption ].

Lemma step_invariant a b : invariant a -> step a b -> invariant b.
Proof.
  intros [(Hw & Hr & Hwr) Hs] Hstep.
  destruct Hstep as [l1 g l2 mem e p' mem' e' H]. simpl in *.
  rewrite count_app in Hw, Hr.
  apply Forall_app in Hs. destruct Hs as [Hs1 Hs2].
  inversion Hs2 as [|g0 l0 Hg Hs2' E]; subst g0 l0. clear Hs2.
  unfold invariant, lock_agrees. simpl. rewrite !count_app.
  assert (Hidle : count holds_write l1 = 0%nat -> count holds_write l2 = 0%nat ->
                  count holds_read l1 = 0%nat -> count holds_read l2 = 0%nat ->
                  Forall (sees_stored mem') l1 /\ Forall (sees_stored mem') l2).
  { intros. split; apply Forall_sees_stored_idle; assumption. }
  assert (Hkeep : val mem' = val mem ->
                  Forall (sees_stored mem') l1 /\ Forall (sees_stored mem') l2).
  { intros Hv. split; apply (Forall_sees_stored_val mem); assumption. }
  remember (count holds_write l1) as w1.
  remember (count holds_write l2) as w2.
  remember (count holds_read l1) as r1.
  remember (count holds_read l2) as r2.
  destruct g as [get time exp p].
  unfold at_pc. unfold holds_write, holds_read in Hw, Hr |- *.
  unfold sees_stored in Hg. simpl in Hw, Hr, Hg |- *.
  destruct p; cbn [Dedup_step go_get go_time go_exp go_pc] in H.
  - (* RLock *)
    apply RLock_step in H. destruct H as (-> & Hf & Hv & Hl).
    rewrite Hl. rewrite Hf in *. simpl. destruct (Hkeep Hv).
    repeat split; try lia; try discriminate. insert_go.
  - (* read under the read lock *)
    apply gets_val_step in H. destruct H as (-> & ->).
    destruct (Hkeep eq_refl).
    repeat split; try lia; try assumption. insert_go.
  - (* RUnlock *)
    apply RUnlock_step in H. destruct H as (-> & Hv & Hn & Hf).
    rewrite Hf in *. destruct (Hkeep Hv).
    repeat split; try lia.
    + intros Ht. specialize (Hwr Ht). lia.
    + insert_go.
  - (* first check *)
    apply IsExpired_step in H. destruct H as (-> & Hp).
    destruct (Hkeep eq_refl).
    assert (Hout : match p' with PDone _ | PLock => True | _ => False end).
    { destruct Hp as [[b ->]|[x ->]]; [destruct b|]; exact I. }
    destruct p'; try contradiction;
      (repeat split; try lia; try assumption; insert_go).
  - (* Lock *)
    apply Lock_step in H. destruct H as (-> & Hv & Hn & Hf & Hl).
    rewrite Hl. rewrite Hf, Hn in *. simpl. destruct (Hkeep Hv).
    repeat split; try lia. insert_go.
  - (* read under the write lock *)
    apply gets_val_step in H. destruct H as (-> & ->).
    destruct (Hkeep eq_refl).
    repeat split; try lia; try assumption. insert_go.
  - (* second check *)
    apply IsExpired_step in H. destruct H as (-> & Hp).
    destruct (Hkeep eq_refl).
    assert (Hout : match p' with
                   | PReturn (Returns v') => v' = v
                   | PReturn (Panics _) | PGet => True
                   | _ => False
                   end).
    { destruct Hp as [[b ->]|[x ->]]; [destruct b|]; simpl; auto. }
    destruct p' as [| | | | | | | | | | |[]|]; try contradiction;
      (repeat split; try lia; try assumption; insert_go).
  - (* SetGetter begins *)
    destruct (writer (lock mem)) eqn:Hf; [|lia]. specialize (Hwr eq_refl).
    destruct get as [g|].
    + injection H as <- <- _. rewrite Hf. destruct (Hkeep eq_refl).
      repeat split; try lia; try assumption. insert_go.
    + apply in_val_step in H. destruct H as (Hl & Hp). rewrite Hl, Hf.
      destruct Hidle; try lia.
      destruct Hp as [[? ->]|[? ->]];
        (repeat split; try lia; try assumption; insert_go).
  - (* SetGetter completes *)
    destruct (writer (lock mem)) eqn:Hf; [|lia]. specialize (Hwr eq_refl).
    apply in_val_step in H. destruct H as (Hl & Hp). rewrite Hl, Hf.
    destruct Hidle; try lia.
    destruct Hp as [[? ->]|[? ->]];
      (repeat split; try lia; try assumption; insert_go).
  - (* SetTimer *)
    destruct (writer (lock mem)) eqn:Hf; [|lia]. specialize (Hwr eq_refl).
    apply in_val_step in H. destruct H as (Hl & Hp). rewrite Hl, Hf.
    destruct Hidle; try lia.
    destruct Hp as [[? ->]|[? ->]];
      (repeat split; try lia; try assumption; insert_go).
  - (* the result is evaluated *)
    apply gets_val_step in H. destruct H as (-> & ->).
    destruct (Hkeep eq_refl).
    repeat split; try lia; try assumption. insert_go.
  - (* Unlock *)
    apply Unlock_step in H. destruct H as (-> & Hv & Hf & Hl).
    rewrite Hl. rewrite Hf in *. simpl. destruct (Hkeep Hv).
    repeat split; try lia; try discriminate. insert_go.
  - discriminate.
Qed.

Lemma reachable_invariant q : reachable q -> invariant q.
Proof.
  induction 1 as [v e gs Hgs | a b _ IH Hstep].
  - assert (Hc : forall f, (forall g, go_pc g = PStart -> f g = false) ->
                           count f gs = 0%nat).
    { intros f Hf. unfold count. induction Hgs as [|g gs Hg _ IH]; [reflexivity|].
      simpl. now rewrite (Hf g Hg). }
    split; [split; [|split]|]; simpl.
    + apply Hc. intros g Hg. unfold holds_write. now rewrite Hg.
    + apply Hc. intros g Hg. unfold holds_read. now rewrite Hg.
    + discriminate.
    + eapply Forall_impl; [|exact Hgs]. intros g Hg.
      unfold sees_stored. now rewrite Hg.
  - exact (step_invariant a b IH Hstep).
Qed.



Lemma IsExpired_cases (exp : Expirer) (v : Timed) (e : env) :
  exists r e1,
    IsExpired exp v tt e = (r, tt, e1) /\
    ((exists b, r = Ret b) \/ (exists p, r = Panic p)).
Proof.
  destruct exp as [f|]; simpl.
  - unfold invoke. destruct (f v (world e)) as [[b|p] w']; simpl; eauto 6.
  - unfold ret. eauto 6.
Qed.

Lemma run_alone_step k get time exp p mem e p' mem' e' :
  Dedup_step get time exp p mem e = Some (p', mem', e') ->
  run_alone (S k) get time exp p mem e = run_alone k get time exp p' mem' e'.
Proof.
  intros H. destruct p; try discriminate H;
    change (run_alone (S k) get time exp ?q mem e)
      with (match Dedup_step get time exp q mem e with
            | Some (p', mem', e') => run_alone k get time exp p' mem' e'
            | None => None
            end);
    rewrite H; reflexivity.
Qed.

Lemma advance_Ret {A} (m : M Mem A) k h mem e a mem' e' :
  m mem e = (Ret a, mem', e') -> advance m k h mem e = Some (k a, mem', e').
Proof. intros H. unfold advance. now rewrite H. Qed.

Lemma advance_Panic {A} (m : M Mem A) k h mem e x mem' e' :
  m mem e = (Panic x, mem', e') -> advance m k h mem e = Some (h x, mem', e').
Proof. intros H. unfold advance. now rewrite H. Qed.


Lemma run_alone_done k get time exp r mem e :
  run_alone k get time exp (PDone r) mem e = Some (r, mem, e).
Proof. destruct k; reflexivity. Qed.

Ltac step_with tac :=
  erewrite run_alone_step by (cbn [Dedup_step]; tac).

(** A goroutine that runs alone on an unlocked cache goes through its
    steps to the end and does what [Mem_Dedup] does. *)
Lemma run_alone_Dedup get time exp v e :
  match Mem_Dedup get time exp (NewMem v) e with
  | (Ret r, mem, e') =>
      run_alone 12 get time exp PStart (NewMem v) e = Some (Returns r, mem, e')
  | (Panic x, mem, e') =>
      run_alone 12 get time exp PStart (NewMem v) e = Some (Panics x, mem, e')
  | _ => False
  end.
Proof.
  assert (Hstart : run_alone 12 get time exp PStart (NewMem v) e
                   = run_alone 9 get time exp (PCheck1 v) (NewMem v) e).
  { do 3 step_with reflexivity. reflexivity. }
  rewrite Hstart. clear Hstart.
  destruct (IsExpired_cases exp v e) as (r1 & e1 & H1 & [[b1 ->]|[p1 ->]]).
  2:{ pose proof (Mem_Dedup_panic_first get time exp RWMutex_zero v p1 e e1
                    eq_refl H1) as Hd.
      fold (NewMem v) in Hd. rewrite Hd.
      step_with ltac:(apply advance_Panic, IsExpired_run, H1).
      apply run_alone_done. }
  destruct b1.
  2:{ pose proof (Mem_Dedup_fresh get time exp RWMutex_zero v e e1
                    eq_refl H1) as Hd.
      fold (NewMem v) in Hd. rewrite Hd.
      step_with ltac:(apply advance_Ret, IsExpired_run, H1).
      apply run_alone_done. }
  step_with ltac:(apply advance_Ret, IsExpired_run, H1).
  cbv beta. cbn [negb]. cbv iota.
  do 2 step_with reflexivity.
  destruct (IsExpired_cases exp v e1) as (r2 & e2 & H2 & [[b2 ->]|[p2 ->]]).
  2:{ rewrite (Mem_Dedup_second get time exp v e e1 e2 _ H1 H2) by eauto.
      step_with ltac:(apply advance_Panic, IsExpired_run, H2).
      step_with reflexivity. apply run_alone_done. }
  destruct b2.
  2:{ rewrite (Mem_Dedup_second get time exp v e e1 e2 _ H1 H2) by eauto.
      step_with ltac:(apply advance_Ret, IsExpired_run, H2).
      step_with reflexivity. apply run_alone_done. }
  step_with ltac:(apply advance_Ret, IsExpired_run, H2).
  cbv beta. cbn [negb]. cbv iota.
  destruct (Either_SetGetter_total get (Timed_Either v) e2) as (x & e3 & Hg).
  destruct (Timed_SetTimer_total time (mkTimed x (Timed_Time v)) e3)
    as (v' & e4 & Ht).
  rewrite (Mem_Dedup_refresh _ _ _ _ _ _ _ _ _ _ _ H1 H2 Hg Ht).
  assert (Hset : in_val (in_Either (Either_SetGetter get))
                   (mkMem (mkRWMutex 0 true) v) e2
                 = (Ret tt, mkMem (mkRWMutex 0 true) (mkTimed x (Timed_Time v)), e3)).
  { unfold in_val, in_Either, zoom. simpl. now rewrite Hg. }
  assert (Hend : forall k,
             run_alone (3 + k) get time exp PTime
               (mkMem (mkRWMutex 0 true) (mkTimed x (Timed_Time v))) e3
             = Some (Returns v', NewMem v', e4)).
  { intros k. change (3 + k)%nat with (S (S (S k))).
    step_with ltac:(apply advance_Ret; unfold in_val, zoom; simpl;
                    rewrite Ht; reflexivity).
    do 2 step_with reflexivity. apply run_alone_done. }
  destruct get as [g|].
  - step_with reflexivity.
    step_with ltac:(apply advance_Ret, Hset).
    apply (Hend 0%nat).
  - step_with ltac:(apply advance_Ret, Hset).
    apply (Hend 1%nat).
Qed.

Lemma step_at_step i gs mem e gs' mem' e' :
  step_at i gs mem e = Some (gs', mem', e') ->
  step (mkPool mem e gs) (mkPool mem' e' gs').
Proof.
  intros H.
  assert (Hsplit : exists l1 g l2 p',
             gs = l1 ++ g :: l2 /\ gs' = l1 ++ at_pc g p' :: l2 /\
             Dedup_step (go_get g) (go_time g) (go_exp g) (go_pc g) mem e
               = Some (p', mem', e')).
  { revert i gs' H. induction gs as [|g rest IH]; intros i gs' H; [discriminate|].
    destruct i as [|j]; simpl in H.
    - destruct (Dedup_step _ _ _ _ mem e) as [[[p' m1] e1]|] eqn:E; [|discriminate].
      injection H as <- <- <-. exists [], g, rest, p'. auto.
    - destruct (step_at j rest mem e) as [[[rest' m1] e1]|] eqn:E; [|discriminate].
      injection H as <- <- <-.
      destruct (IH _ _ E) as (l1 & g0 & l2 & p' & -> & -> & Hd).
      exists (g :: l1), g0, l2, p'. auto. }
  destruct Hsplit as (l1 & g & l2 & p' & -> & -> & Hd).
  now apply step_go.
Qed.

Lemma run_schedule_reachable sched q q' :
  reachable q -> run_schedule sched q = Some q' -> reachable q'.
Proof.
  revert q. induction sched as [|i rest IH]; intros q Hq H; simpl in H.
  - now injection H as <-.
  - destruct (step_at i (pool_gos q) (pool_mem q) (pool_env q))
      as [[[gs' mem'] e']|] eqn:E; [|discriminate].
    apply step_at_step in E. apply (IH _ (reachable_step q _ Hq
                                          ltac:(destruct q; exact E)) H).
Qed.

Lemma count_le f f' l :
  (forall g, f g = true -> f' g = true) -> (count f l <= count f' l)%nat.
Proof.
  intros Hf. unfold count. induction l as [|g l IH]; simpl; [lia|].
  destruct (f g) eqn:E.
  - rewrite (Hf g E). simpl. lia.
  - destruct (f' g); simpl; lia.
Qed.

Lemma count_In f g l :
  In g l -> f g = true -> (1 <= count f l)%nat.
Proof.
  intros Hin Hg. apply in_split in Hin. destruct Hin as (l1 & l2 & ->).
  rewrite count_app, Hg. lia.
Qed.

Lemma in_flight_holds_write g : in_flight g = true -> holds_write g = true.
Proof. unfold in_flight, holds_write. destruct (go_pc g); auto. Qed.

(** A step of a goroutine outside the write region leaves the stored state
    and the getters alone. *)
Lemma step_outside get time exp p mem e p' mem' e' :
  Dedup_step get time exp p mem e = Some (p', mem', e') ->
  holds_write (mkGo get time exp p) = false ->
  val mem' = val mem /\ getter_calls e' = getter_calls e.
Proof.
  intros H Hp. unfold holds_write in Hp. simpl in Hp.
  assert (Hlock : forall (m : M RWMutex unit) k h,
             (forall l, snd (m l e) = e) ->
             advance (in_lock m) k h mem e = Some (p', mem', e') ->
             val mem' = val mem /\ getter_calls e' = getter_calls e).
  { intros m k h Hm Ha. apply advance_inv in Ha. unfold in_lock, zoom in Ha.
    specialize (Hm (lock mem)).
    destruct (m (lock mem) e) as [[r l'] e1]. simpl in Hm. subst e1.
    destruct Ha as [(a & [= _ <- <-] & _)|(x & [= _ <- <-] & _)]; auto. }
  destruct p; try discriminate Hp; cbn [Dedup_step] in H.
  - apply Hlock in H; [exact H|].
    intros l. unfold RWMutex_RLock. now destruct (writer l).
  - unfold advance, gets in H. injection H as _ <- <-. auto.
  - apply Hlock in H; [exact H|].
    intros l. unfold RWMutex_RUnlock. now destruct (readers l).
  - apply advance_inv in H. rewrite IsExpired_frame in H.
    assert (He : getter_calls (snd (IsExpired exp v tt e)) = getter_calls e).
    { destruct exp as [f|]; [|reflexivity]. unfold IsExpired, invoke.
      destruct (f v (world e)) as [[b|x] w']; unfold getter_calls; simpl;
        rewrite filter_app; simpl; apply app_nil_r. }
    destruct H as [(a & [= _ <- <-] & _)|(x & [= _ <- <-] & _)]; auto.
  - apply Hlock in H; [exact H|].
    intros l. unfold RWMutex_Lock. now destruct (readers l), (writer l).
  - discriminate H.
Qed.

(** C8: however the goroutines calling [Dedup] on one cache interleave, at
    most one getter is running at any time; the goroutine whose getter is
    running holds the write lock, alone, with no goroutine in the read
    region; a step taken while nobody holds the write lock changes neither
    the stored state nor the log of getter calls.  A snapshot taken under
    the read lock is the stored state, taken while no goroutine is between
    [Lock] and [Unlock], and what a goroutine returns from the locked
    region is the stored state: readers see what the writer left. *)
Theorem C8_one_refresh_at_a_time (q : pool) :
  reachable q ->
  let gs := pool_gos q in
  let mem := pool_mem q in
  (count in_flight gs <= 1)%nat /\
  (forall g, In g gs -> in_flight g = true ->
     holds_write g = true /\ writer (lock mem) = true /\
     count holds_write gs = 1%nat /\ count holds_read gs = 0%nat) /\
  (forall q', step q q' -> writer (lock mem) = false ->
     val (pool_mem q') = val mem /\
     getter_calls (pool_env q') = getter_calls (pool_env q)) /\
  (forall g v, In g gs -> go_pc g = PRead v ->
     v = val mem /\ count holds_write gs = 0%nat) /\
  (forall g v, In g gs -> go_pc g = PReturn (Returns v) -> v = val mem).
Proof.
  intros Hq gs mem. destruct (reachable_invariant q Hq) as [(Hw & Hr & Hwr) Hs].
  fold gs in Hw, Hr, Hs. fold mem in Hw, Hr, Hwr, Hs.
  split; [|split; [|split; [|split]]].
  - pose proof (count_le in_flight holds_write gs in_flight_holds_write).
    destruct (writer (lock mem)); lia.
  - intros g Hin Hg. apply in_flight_holds_write in Hg.
    pose proof (count_In holds_write g gs Hin Hg).
    destruct (writer (lock mem)); [|lia].
    rewrite Hr. auto.
  - intros q' Hstep Hf. rewrite Hf in Hw.
    destruct Hstep as [l1 g l2 m e p' m' e' Hd]. simpl in *.
    unfold gs in Hw. rewrite count_app in Hw.
    destruct (holds_write g) eqn:Hg; [lia|].
    destruct g as [get time exp p]. exact (step_outside _ _ _ _ _ _ _ _ _ Hd Hg).
  - intros g v Hin Hg.
    rewrite Forall_forall in Hs. specialize (Hs g Hin).
    unfold sees_stored in Hs. rewrite Hg in Hs. split; [exact Hs|].
    assert (Hread : holds_read g = true) by (unfold holds_read; now rewrite Hg).
    pose proof (count_In holds_read g gs Hin Hread).
    destruct (writer (lock mem)); [|exact Hw].
    specialize (Hwr eq_refl). lia.
  - intros g v Hin Hg.
    rewrite Forall_forall in Hs. specialize (Hs g Hin).
    unfold sees_stored in Hs. now rewrite Hg in Hs.
Qed.

(** * Further properties *)

(** ** Reading and replacing the stored state *)

(** X1: on an unlocked cache, what [SetTimed] stores is what [GetTimed]
    returns next, whatever was stored before; after [Zero] the state is
    [Timed{}] and [Get] returns nil; the mutex is unlocked again after
    each. *)
Theorem X1_SetTimed_GetTimed (old v : Timed) (e : env) :
  (Mem_SetTimed v ;; Mem_GetTimed) (NewMem old) e = (Ret v, NewMem v, e) /\
  (Mem_Zero ;; Mem_GetTimed) (NewMem old) e
    = (Ret Timed_zero, NewMem Timed_zero, e) /\
  (Mem_Zero ;; Mem_Get) (NewMem old) e = (Ret VNil, NewMem Timed_zero, e).
Proof. repeat split. Qed.

(** X2: on a cache that no writer holds, [Mem.Get] returns the stored
    payload when it is not an error and panics with the payload itself when
    it is one; in both cases the cache is as before, the read lock having
    been released before the panic. *)
Theorem X2_Mem_Get (l : RWMutex) (v : Timed) (e : env) :
  writer l = false ->
  let payload := Either_0 (Timed_Either v) in
  Mem_Get (mkMem l v) e
  = (match as_error payload with
     | Some _ => Panic payload
     | None => Ret payload
     end, mkMem l v, e).
Proof.
  intros Hl payload. unfold Mem_Get.
  erewrite bind_Ret by (apply Mem_GetTimed_run, Hl).
  unfold lift, Either_Get, Either_Unwrap. fold payload.
  destruct payload; reflexivity.
Qed.


(** ** The container *)

(** X5: [Get] after [Set]: a payload that is not an error comes back as it
    is, an error comes back as the panic value, unchanged; [Unwrap] gives
    the same payload either as its value or as its error, never both. *)
Theorem X5_Set_then_Get (v : value) (self : Either) (e : env) :
  (Either_Set v ;; call_on Either_Get) self e
    = (match as_error v with Some _ => Panic v | None => Ret v end,
       mkEither v, e) /\
  (Either_Set v ;; gets Either_Unwrap) self e
    = (Ret (match as_error v with Some _ => VNil | None => v end, as_error v),
       mkEither v, e).
Proof. destruct v; repeat split. Qed.

(** X6: an [Either] used as the getter of [SetGetter] hands its payload
    over unchanged, an error included: the panic of its [Get] is caught
    and stored. *)
Theorem X6_SetGetter_copies_Either (v : value) (self : Either) (e : env) :
  Either_SetGetter (Either_as_Getter (mkEither v)) self e
  = (Ret tt, mkEither v, mkEnv (world e) (calls e ++ [CallGet])).
Proof. destruct v; reflexivity. Qed.

(** X8: a nil [GetterFunc], a nil [TimerFunc] and [Void] are not nil
    interfaces, so they are called, but they leave the state that the nil
    getter and the nil timer leave: [Dedup] with them returns and stores
    what it returns and stores with nil capabilities. *)
Theorem X8_nil_funcs_and_Void (exp : Expirer) (v : Timed) (e : env) :
  let nil_run := Mem_Dedup None None exp (NewMem v) e in
  let func_run :=
    Mem_Dedup (Some (GetterFunc_Get None)) (Some (TimerFunc_Time None)) exp
              (NewMem v) e in
  let void_run := Mem_Dedup (Some Void_Get) (Some Void_Time) exp (NewMem v) e in
  fst func_run = fst nil_run /\ fst void_run = fst nil_run /\
  world (snd func_run) = world (snd nil_run) /\
  world (snd void_run) = world (snd nil_run).
Proof.
  intros nil_run func_run void_run. subst nil_run func_run void_run.
  destruct (IsExpired_cases exp v e) as (r1 & e1 & H1 & [[b1 ->]|[p1 ->]]).
  2:{ rewrite !(Mem_Dedup_panic_first _ _ exp RWMutex_zero v p1 e e1 eq_refl H1).
      auto. }
  destruct b1.
  2:{ rewrite !(Mem_Dedup_fresh _ _ exp RWMutex_zero v e e1 eq_refl H1). auto. }
  destruct (IsExpired_cases exp v e1) as (r2 & e2 & H2 & [[b2 ->]|[p2 ->]]).
  2:{ rewrite !(Mem_Dedup_second _ _ exp v e e1 e2 _ H1 H2) by eauto. auto. }
  destruct b2.
  2:{ rewrite !(Mem_Dedup_second _ _ exp v e e1 e2 _ H1 H2) by eauto. auto. }
  rewrite (Mem_Dedup_refresh None None exp v e e1 e2 e2 e2
             (mkEither VNil) (mkTimed (mkEither VNil) time_zero) H1 H2
             eq_refl eq_refl).
  rewrite (Mem_Dedup_refresh (Some (GetterFunc_Get None))
             (Some (TimerFunc_Time None)) exp v e e1 e2 _ _
             (mkEither VNil) (mkTimed (mkEither VNil) time_zero) H1 H2
             eq_refl eq_refl).
  rewrite (Mem_Dedup_refresh (Some Void_Get) (Some Void_Time) exp v e e1 e2 _ _
             (mkEither VNil) (mkTimed (mkEither VNil) time_zero) H1 H2
             eq_refl eq_refl).
  auto.
Qed.
(** ** Failures in the cache *)

Lemma getter_calls_app (e : env) (w : W) (cs : list call) :
  getter_calls (mkEnv w (calls e ++ cs)) = getter_calls e ++ filter is_CallGet cs.
Proof. unfold getter_calls. simpl. apply filter_app. Qed.

(** X7: a failure of the getter is cached like a value.  When the state is
    expired and the getter panics with an error, [Dedup] returns normally
    and stores the error under the timestamp the timer gives; [Mem.Get]
    then panics with that error, and a later [Dedup] whose expirer finds
    the state fresh returns the cached failure without calling anything
    else. *)
Theorem X7_failure_is_cached
    (g : method value) (c : method time_Time) (exp : Expirer) (v : Timed)
    (e e1 e2 : env) (msg : string) (w3 w4 : W) (inst : time_Time) :
  IsExpired exp v tt e = (Ret true, tt, e1) ->
  IsExpired exp v tt e1 = (Ret true, tt, e2) ->
  g (world e2) = (Panics (VErr msg), w3) ->
  c w3 = (Returns inst, w4) ->
  let cached := MakeTimed (VErr msg) inst in
  let e4 := mkEnv w4 (calls e2 ++ [CallGet; CallTime]) in
  Mem_Dedup (Some g) (Some c) exp (NewMem v) e = (Ret cached, NewMem cached, e4) /\
  Mem_Get (NewMem cached) e4 = (Panic (VErr msg), NewMem cached, e4) /\
  (forall get' time' exp' e5 e6,
     IsExpired exp' cached tt e5 = (Ret false, tt, e6) ->
     Mem_Dedup get' time' exp' (NewMem cached) e5
       = (Ret cached, NewMem cached, e6)).
Proof.
  intros H1 H2 Hg Hc cached e4. split; [|split].
  - pose proof (Either_SetGetter_panics g (Timed_Either v) e2 _ w3 Hg) as HG.
    cbn [not_nil] in HG.
    assert (HT : Timed_SetTimer (Some c)
                   (mkTimed (mkEither (VErr msg)) (Timed_Time v))
                   (mkEnv w3 (calls e2 ++ [CallGet]))
                 = (Ret tt, cached, e4)).
    { rewrite (Timed_SetTimer_returns c _ _ inst w4) by exact Hc.
      unfold e4, cached, MakeTimed. simpl. now rewrite <- app_assoc. }
    exact (Mem_Dedup_refresh (Some g) (Some c) exp v e e1 e2 _ _ _ _ H1 H2 HG HT).
  - reflexivity.
  - intros get' time' exp' e5 e6 H.
    apply (Mem_Dedup_fresh get' time' exp' RWMutex_zero cached e5 e6 eq_refl H).
Qed.

(** X9: a failure of the timer is not cached as fresh.  When the state is
    expired and the timer panics with a value that is not nil, [Dedup]
    returns normally with that value in the value slot, whatever the getter
    has produced, under the timestamp from before the call; so [Inst] and
    [Duration] expirers answer about the result as they answered about the
    old state. *)
Theorem X9_timer_failure_keeps_old_timestamp
    (get : Getter) (c : method time_Time) (exp : Expirer) (v : Timed)
    (e e1 e2 e3 : env) (x : Either) (p : value) (w4 : W) :
  IsExpired exp v tt e = (Ret true, tt, e1) ->
  IsExpired exp v tt e1 = (Ret true, tt, e2) ->
  Either_SetGetter get (Timed_Either v) e2 = (Ret tt, x, e3) ->
  c (world e3) = (Panics p, w4) ->
  not_nil p = true ->
  let r := mkTimed (mkEither p) (Timed_Time v) in
  Mem_Dedup get (Some c) exp (NewMem v) e
    = (Ret r, NewMem r, mkEnv w4 (calls e3 ++ [CallTime])) /\
  (forall i, Inst_IsExpired i r = Inst_IsExpired i v) /\
  (forall d, Duration_IsExpired d r = Duration_IsExpired d v).
Proof.
  intros H1 H2 Hg Hc Hp r. split; [|split; reflexivity].
  assert (HT : Timed_SetTimer (Some c) (mkTimed x (Timed_Time v)) e3
               = (Ret tt, r, mkEnv w4 (calls e3 ++ [CallTime]))).
  { rewrite (Timed_SetTimer_panics c _ e3 p w4 Hc). simpl. now rewrite Hp. }
  exact (Mem_Dedup_refresh _ _ _ _ _ _ _ _ _ _ _ H1 H2 Hg HT).
Qed.
(** ** Expirers and timers at work *)

Lemma Mem_Dedup_fresh_pure get time (f : Timed -> method bool)
    (l : RWMutex) (v : Timed) (e : env) (w' : W) :
  writer l = false ->
  f v (world e) = (Returns false, w') ->
  Mem_Dedup get time (Some f) (mkMem l v) e
  = (Ret v, mkMem l v, mkEnv w' (calls e ++ [CallIsExpired v])).
Proof.
  intros Hl H. apply Mem_Dedup_fresh; [exact Hl|].
  unfold IsExpired, invoke. now rewrite H.
Qed.

(** X10: the expirer [Inst(i)] keeps every state stamped at or before [i]:
    [Dedup] returns it and calls neither getter nor timer.  The empty
    cache is stamped with the zero time, so with an [Inst] at or after the
    zero time it is never filled.  From a state stamped after [i], two
    calls in a row with the timer [Inst(j)], [j <= i], call the getter
    once: the second returns what the first has stored. *)
Theorem X10_Inst_expirer (get : Getter) (time : Timer) (i : time_Time)
    (v : Timed) (e : env) :
  (forall l, writer l = false -> Timed_Time v <= i ->
     Mem_Dedup get time (Some (Inst_IsExpired i)) (mkMem l v) e
       = (Ret v, mkMem l v, mkEnv (world e) (calls e ++ [CallIsExpired v]))) /\
  (0 <= i ->
     Mem_Dedup get time (Some (Inst_IsExpired i)) (NewMem Timed_zero) e
       = (Ret Timed_zero, NewMem Timed_zero,
          mkEnv (world e) (calls e ++ [CallIsExpired Timed_zero]))) /\
  (forall j, i < Timed_Time v -> j <= i ->
     exists x e',
       let r := mkTimed x j in
       Dedup_times 2 get (Some (Inst_Time j)) (Some (Inst_IsExpired i))
                   (NewMem v) e
         = (Ret [r; r], NewMem r, e') /\
       getter_calls e'
         = getter_calls e ++ match get with Some _ => [CallGet] | None => [] end).
Proof.
  assert (Hfresh : forall tm l t e0, writer l = false -> Timed_Time t <= i ->
            Mem_Dedup get tm (Some (Inst_IsExpired i)) (mkMem l t) e0
            = (Ret t, mkMem l t, mkEnv (world e0) (calls e0 ++ [CallIsExpired t]))).
  { intros tm l t e0 Hl Ht. apply Mem_Dedup_fresh_pure; [exact Hl|].
    unfold Inst_IsExpired, time_After.
    now rewrite (proj2 (Z.ltb_ge i (Timed_Time t)) Ht). }
  split; [|split].
  - intros l Hl Hv. now apply Hfresh.
  - intros Hi. apply (Hfresh time RWMutex_zero Timed_zero e eq_refl Hi).
  - intros j Hv Hj.
    set (exp := Some (Inst_IsExpired i)).
    assert (Hexp : forall e0, IsExpired exp v tt e0
                     = (Ret true, tt,
                        mkEnv (world e0) (calls e0 ++ [CallIsExpired v]))).
    { intros e0. unfold exp, IsExpired, invoke, Inst_IsExpired, time_After.
      simpl. now rewrite (proj2 (Z.ltb_lt i (Timed_Time v)) Hv). }
    set (e1 := mkEnv (world e) (calls e ++ [CallIsExpired v])).
    set (e2 := mkEnv (world e1) (calls e1 ++ [CallIsExpired v])).
    destruct (Either_SetGetter_total get (Timed_Either v) e2) as (x & e3 & Hg).
    set (r := mkTimed x j).
    set (e4 := mkEnv (world e3) (calls e3 ++ [CallTime])).
    assert (Ht : Timed_SetTimer (Some (Inst_Time j)) (mkTimed x (Timed_Time v)) e3
                 = (Ret tt, r, e4)) by reflexivity.
    pose proof (Mem_Dedup_refresh get (Some (Inst_Time j)) exp v e e1 e2 e3 e4
                  x r (Hexp e) (Hexp e1) Hg Ht) as Hfirst.
    pose proof (Hfresh (Some (Inst_Time j)) RWMutex_zero r e4 eq_refl Hj)
      as Hsecond.
    exists x, (mkEnv (world e4) (calls e4 ++ [CallIsExpired r])). split.
    + unfold Dedup_times.
      erewrite bind_Ret by exact Hfirst. cbv beta.
      erewrite bind_Ret by (erewrite bind_Ret by exact Hsecond; reflexivity).
      reflexivity.
    + rewrite getter_calls_app. unfold e4. rewrite getter_calls_app.
      unfold getter_calls at 1.
      rewrite (Either_SetGetter_calls _ _ _ _ _ _ Hg), filter_app.
      unfold e2, e1. simpl calls. rewrite !filter_app. simpl.
      rewrite !app_nil_r. fold (getter_calls e).
      destruct get; reflexivity.
Qed.

Lemma Duration_le (d1 d2 : time_Duration) (v : Timed) (w : W) :
  d1 <= d2 ->
  fst (Duration_IsExpired d2 v w) = Returns true ->
  fst (Duration_IsExpired d1 v w) = Returns true.
Proof.
  intros Hd. rewrite !Duration_IsExpired_run. simpl.
  intros [= H]. apply Z.ltb_lt in H.
  now rewrite (proj2 (Z.ltb_lt (Timed_Time v + d1) (fst (time_Now w)))
                 ltac:(lia)).
Qed.

(** X11: the shorter the duration, the sooner a state expires: at one
    reading of the clock, what [Duration(d2)] reports expired every
    [Duration(d1)] with [d1 <= d2] reports expired.  So what [ExpireDay]
    reports expired [ExpireHour] does, then [ExpireMinute], then
    [ExpireSecond], then [NowExpirer], which answers as [Duration(0)];
    all of them read the clock once. *)
Theorem X11_shorter_duration_expires_sooner (v : Timed) (w : W) :
  (forall d1 d2, d1 <= d2 ->
     fst (Duration_IsExpired d2 v w) = Returns true ->
     fst (Duration_IsExpired d1 v w) = Returns true) /\
  (fst (ExpireDay_IsExpired v w) = Returns true ->
   fst (ExpireHour_IsExpired v w) = Returns true) /\
  (fst (ExpireHour_IsExpired v w) = Returns true ->
   fst (ExpireMinute_IsExpired v w) = Returns true) /\
  (fst (ExpireMinute_IsExpired v w) = Returns true ->
   fst (ExpireSecond_IsExpired v w) = Returns true) /\
  (fst (ExpireSecond_IsExpired v w) = Returns true ->
   fst (NowExpirer_IsExpired v w) = Returns true) /\
  NowExpirer_IsExpired v w = Duration_IsExpired 0 v w /\
  (forall d, snd (Duration_IsExpired d v w) = snd (time_Now w)).
Proof.
  assert (Hnow : NowExpirer_IsExpired v w = Duration_IsExpired 0 v w).
  { unfold NowExpirer_IsExpired, Duration_IsExpired, time_Add.
    now rewrite Z.add_0_r. }
  split; [intros d1 d2; apply Duration_le|].
  split; [apply Duration_le; vm_compute; discriminate|].
  split; [apply Duration_le; vm_compute; discriminate|].
  split; [apply Duration_le; vm_compute; discriminate|].
  split; [rewrite Hnow; apply Duration_le; vm_compute; discriminate|].
  split; [exact Hnow|].
  intros d. now rewrite Duration_IsExpired_run.
Qed.

Lemma Duration_hit get time (d : time_Duration) (l : RWMutex) (v : Timed)
    (e : env) :
  writer l = false ->
  fst (time_Now (world e)) <= Timed_Time v + d ->
  Mem_Dedup get time (Some (Duration_IsExpired d)) (mkMem l v) e
  = (Ret v, mkMem l v,
     mkEnv (snd (time_Now (world e))) (calls e ++ [CallIsExpired v])).
Proof.
  intros Hl H. apply Mem_Dedup_fresh_pure; [exact Hl|].
  rewrite Duration_IsExpired_run.
  now rewrite (proj2 (Z.ltb_ge _ _) H).
Qed.

(** X12: [Dedup] with the expirer [Duration(d)] serves the stored state
    for as long as the clock reads at most its timestamp plus [d]: one
    reading of the clock, no call of the getter or the timer.  When the
    clock reads later than that at both checks, the state is made anew by
    [SetGetter] and [SetTimer]. *)
Theorem X12_Duration_hit_and_miss (get : Getter) (time : Timer)
    (d : time_Duration) (v : Timed) (e : env) :
  let now1 := fst (time_Now (world e)) in
  let w1 := snd (time_Now (world e)) in
  let now2 := fst (time_Now w1) in
  let w2 := snd (time_Now w1) in
  let exp := Some (Duration_IsExpired d) in
  (forall l, writer l = false -> now1 <= Timed_Time v + d ->
     Mem_Dedup get time exp (mkMem l v) e
       = (Ret v, mkMem l v, mkEnv w1 (calls e ++ [CallIsExpired v]))) /\
  (Timed_Time v + d < now1 -> Timed_Time v + d < now2 ->
     exists x e3 v' e4,
       Either_SetGetter get (Timed_Either v)
         (mkEnv w2 (calls e ++ [CallIsExpired v; CallIsExpired v]))
         = (Ret tt, x, e3) /\
       Timed_SetTimer time (mkTimed x (Timed_Time v)) e3 = (Ret tt, v', e4) /\
       Mem_Dedup get time exp (NewMem v) e = (Ret v', NewMem v', e4)).
Proof.
  intros now1 w1 now2 w2 exp. split.
  - intros l Hl H. now apply Duration_hit.
  - intros H1 H2.
    set (e2 := mkEnv w2 (calls e ++ [CallIsExpired v; CallIsExpired v])).
    destruct (Either_SetGetter_total get (Timed_Either v) e2) as (x & e3 & Hg).
    destruct (Timed_SetTimer_total time (mkTimed x (Timed_Time v)) e3)
      as (v' & e4 & Ht).
    exists x, e3, v', e4. split; [exact Hg|]. split; [exact Ht|].
    apply (Mem_Dedup_refresh get time exp v e
             (mkEnv w1 (calls e ++ [CallIsExpired v])) e2 e3 e4 x v');
      try assumption.
    + unfold exp, IsExpired, invoke. rewrite Duration_IsExpired_run.
      fold now1 w1. now rewrite (proj2 (Z.ltb_lt _ _) H1).
    + unfold exp, IsExpired, invoke. simpl world. rewrite Duration_IsExpired_run.
      fold now2 w2. rewrite (proj2 (Z.ltb_lt _ _) H2). unfold e2. simpl.
      now rewrite <- app_assoc.
Qed.

(** X13: the facade.  [Dedup(nil)] returns [Timed{}] and touches nothing.
    A [Worker] of the readme, which embeds [ExpireMinute], [NowTimer] and
    [Mem], gets from [Fetch] the state it has cached for as long as the
    clock reads no more than a minute past its timestamp, and its own
    [Get] is not called. *)
Theorem X13_Dedup_facade {S} (s : S) (g : method value) (l : RWMutex)
    (v : Timed) (e : env) :
  Dedup None s e = (Ret Timed_zero, s, e) /\
  (writer l = false ->
   fst (time_Now (world e)) <= Timed_Time v + time_Minute ->
   Worker_Fetch g (mkMem l v) e
     = (Ret v, mkMem l v,
        mkEnv (snd (time_Now (world e))) (calls e ++ [CallIsExpired v]))).
Proof.
  split; [reflexivity|].
  intros Hl H. unfold Worker_Fetch, Dedup, Worker. simpl.
  unfold ExpireMinute_IsExpired.
  change (fun v0 : Timed => Duration_IsExpired time_Minute v0)
    with (Duration_IsExpired time_Minute).
  now apply Duration_hit.
Qed.
Lemma IsExpired_getter_calls (exp : Expirer) (v : Timed) (e e1 : env) r :
  IsExpired exp v tt e = (r, tt, e1) -> getter_calls e1 = getter_calls e.
Proof.
  intros H. destruct exp as [f|].
  - unfold IsExpired, invoke in H.
    destruct (f v (world e)) as [[b|x] w']; simpl in H;
      injection H as _ <-; unfold getter_calls; simpl;
      rewrite filter_app; simpl; apply app_nil_r.
  - injection H as _ <-. reflexivity.
Qed.

Lemma SetGetter_getter_calls get self e r self' e' :
  Either_SetGetter get self e = (r, self', e') ->
  getter_calls e'
  = getter_calls e ++ match get with Some _ => [CallGet] | None => [] end.
Proof.
  intros H. unfold getter_calls.
  rewrite (Either_SetGetter_calls _ _ _ _ _ _ H), filter_app.
  destruct get; reflexivity.
Qed.

Lemma SetTimer_getter_calls time t e r t' e' :
  Timed_SetTimer time t e = (r, t', e') -> getter_calls e' = getter_calls e.
Proof.
  intros H. unfold getter_calls.
  rewrite (Timed_SetTimer_calls _ _ _ _ _ _ H), filter_app.
  destruct time; simpl; apply app_nil_r.
Qed.

Lemma last_cons_default {A} (a : A) (l : list A) (d d' : A) :
  last (a :: l) d = last (a :: l) d'.
Proof.
  revert a. induction l as [|b l IH]; intros a; [reflexivity|].
  change (last (b :: l) d = last (b :: l) d'). apply IH.
Qed.

(** X14: an expirer that always says expired (nil, [Void], the tests'
    [BoolExpirer(true)]) makes a cache that never serves a stored state:
    [n] calls of [Dedup] in a row all return normally, call the getter [n]
    times, and the last result is what is stored in the end. *)
Theorem X14_always_expired_fetches_every_time
    (g : method value) (time : Timer) (exp : Expirer) :
  (forall t e0, exists e1, IsExpired exp t tt e0 = (Ret true, tt, e1)) ->
  forall n v e,
  exists vs v' e',
    Dedup_times n (Some g) time exp (NewMem v) e = (Ret vs, NewMem v', e') /\
    List.length vs = n /\
    List.length (getter_calls e') = (List.length (getter_calls e) + n)%nat /\
    last vs v = v'.
Proof.
  intros Hexp. induction n as [|n IH]; intros v e.
  - exists [], v, e. simpl. repeat split. lia.
  - destruct (Hexp v e) as (e1 & H1). destruct (Hexp v e1) as (e2 & H2).
    destruct (Either_SetGetter_total (Some g) (Timed_Either v) e2)
      as (x & e3 & Hg).
    destruct (Timed_SetTimer_total time (mkTimed x (Timed_Time v)) e3)
      as (v1 & e4 & Ht).
    pose proof (Mem_Dedup_refresh _ _ _ _ _ _ _ _ _ _ _ H1 H2 Hg Ht) as Hd.
    destruct (IH v1 e4) as (vs & v' & e' & Hrun & Hlen & Hcalls & Hlast).
    exists (v1 :: vs), v', e'. split; [|split; [|split]].
    + simpl. erewrite bind_Ret by exact Hd. cbv beta.
      erewrite bind_Ret by exact Hrun. reflexivity.
    + simpl. now rewrite Hlen.
    + rewrite Hcalls, (SetTimer_getter_calls _ _ _ _ _ _ Ht),
        (SetGetter_getter_calls _ _ _ _ _ _ Hg),
        (IsExpired_getter_calls _ _ _ _ _ H2),
        (IsExpired_getter_calls _ _ _ _ _ H1), length_app.
      simpl. lia.
    + rewrite <- Hlast. destruct vs as [|v2 vs]; [reflexivity|].
      change (last (v2 :: vs) v = last (v2 :: vs) v1).
      apply last_cons_default.
Qed.
(** ** Goroutines: progress, termination and the mutex *)

Lemma Dedup_step_steps_left get time exp p mem e p' mem' e' :
  Dedup_step get time exp p mem e = Some (p', mem', e') ->
  (steps_left p' < steps_left p)%nat.
Proof.
  intros H. destruct p; cbn [Dedup_step] in H;
    try (destruct get; [injection H as <- _ _; simpl; lia|]);
    try discriminate H;
    apply advance_inv in H;
    destruct H as [(a & _ & ->)|(x & _ & ->)];
    try (destruct a); simpl; lia.
Qed.

Lemma work_left_app l1 g l2 :
  work_left (l1 ++ g :: l2)
  = (work_left l1 + steps_left (go_pc g) + work_left l2)%nat.
Proof.
  unfold work_left. rewrite map_app, list_sum_app. simpl. lia.
Qed.

Lemma step_work_left a b :
  step a b ->
  (work_left (pool_gos b) < work_left (pool_gos a))%nat /\
  List.length (pool_gos b) = List.length (pool_gos a).
Proof.
  intros [l1 g l2 mem e p' mem' e' H]. simpl.
  rewrite !work_left_app, !length_app. simpl.
  apply Dedup_step_steps_left in H. lia.
Qed.

Lemma work_left_bound gs : (work_left gs <= 12 * List.length gs)%nat.
Proof.
  unfold work_left. induction gs as [|g gs IH]; simpl; [lia|].
  assert (steps_left (go_pc g) <= 12)%nat by (destruct (go_pc g); simpl; lia).
  lia.
Qed.

(** X15: every interleaving ends.  Each step of a goroutine brings its
    call nearer to its end, a call takes at most twelve steps, so from a
    pool of goroutines no more steps can be taken than twelve times their
    number; no goroutine is added or lost on the way. *)
Theorem X15_every_interleaving_ends (n : nat) (q q' : pool) :
  steps n q q' ->
  (n + work_left (pool_gos q') <= work_left (pool_gos q))%nat /\
  (n <= 12 * List.length (pool_gos q))%nat /\
  List.length (pool_gos q') = List.length (pool_gos q).
Proof.
  intros H.
  assert (Hmain : (n + work_left (pool_gos q') <= work_left (pool_gos q))%nat /\
                  List.length (pool_gos q') = List.length (pool_gos q)).
  { induction H as [q|n a b c Hab _ IH]; [split; [lia|reflexivity]|].
    destruct (step_work_left a b Hab). destruct IH. split; [lia|congruence]. }
  destruct Hmain as [H1 H2]. pose proof (work_left_bound (pool_gos q)).
  repeat split; [exact H1|lia|exact H2].
Qed.







Lemma count_all_done f gs :
  (forall g, f g = true -> is_done g = false) ->
  Forall (fun g => is_done g = true) gs -> count f gs = 0%nat.
Proof.
  intros Hf Hd. unfold count. induction Hd as [|g gs Hg _ IH]; [reflexivity|].
  simpl. destruct (f g) eqn:E; [|exact IH].
  rewrite (Hf g E) in Hg. discriminate.
Qed.

(** X17: the mutex says what the goroutines do.  In every pool that can
    arise its reader count is the number of goroutines between [RLock] and
    [RUnlock], its writer flag is set exactly when a goroutine is between
    [Lock] and [Unlock], there is at most one such goroutine, and none
    while there are readers.  When all calls are over, the mutex is
    unlocked: no path through [Dedup], a panic of the expirer included,
    leaves it held. *)
Theorem X17_mutex_accounting (q : pool) :
  reachable q ->
  let gs := pool_gos q in
  let l := lock (pool_mem q) in
  readers l = count holds_read gs /\
  (writer l = true <-> count holds_write gs = 1%nat) /\
  (count holds_write gs <= 1)%nat /\
  (count holds_read gs <> 0%nat -> count holds_write gs = 0%nat) /\
  (Forall (fun g => is_done g = true) gs -> l = RWMutex_zero).
Proof.
  intros Hq gs l.
  destruct (reachable_invariant q Hq) as [(Hw & Hr & Hwr) _].
  fold gs in Hw, Hr. fold l in Hw, Hr, Hwr.
  split; [now symmetry|]. split; [|split; [|split]].
  - destruct (writer l); split; intros; try assumption; try reflexivity;
      try discriminate; lia.
  - destruct (writer l); lia.
  - intros Hn. destruct (writer l); [|exact Hw]. specialize (Hwr eq_refl). lia.
  - intros Hd.
    assert (Hcw : count holds_write gs = 0%nat).
    { apply count_all_done; [|exact Hd]. intros g.
      unfold holds_write, is_done. destruct (go_pc g); auto; discriminate. }
    assert (Hcr : count holds_read gs = 0%nat).
    { apply count_all_done; [|exact Hd]. intros g.
      unfold holds_read, is_done. destruct (go_pc g); auto; discriminate. }
    unfold RWMutex_zero. destruct l as [n b]. simpl in *.
    destruct b; [lia|]. now rewrite <- Hr, Hcr.
Qed.
(** ** One refresh for all *)

(** What each step does when the goroutine calls [Dedup] with a getter,
    the timer [Inst(j)] and the expirer [Inst(i)]. *)
Lemma Inst_step (i j : time_Time) (gg : method value) p mem e p' mem' e' :
  Dedup_step (Some gg) (Some (Inst_Time j)) (Some (Inst_IsExpired i)) p mem e
    = Some (p', mem', e') ->
  match p with
  | PGetting =>
      p' = PTime /\ Timed_Time (val mem') = Timed_Time (val mem) /\
      List.length (getter_calls e') = S (List.length (getter_calls e))
  | PTime =>
      p' = PResult /\ Timed_Time (val mem') = j /\
      getter_calls e' = getter_calls e
  | PDone _ => False
  | _ =>
      val mem' = val mem /\ getter_calls e' = getter_calls e /\
      p' = match p with
           | PStart => PRLocked
           | PRLocked => PRead (val mem)
           | PRead v => PCheck1 v
           | PCheck1 v => if i <? Timed_Time v then PLock else PDone (Returns v)
           | PLock => PLocked
           | PLocked => PCheck2 (val mem)
           | PCheck2 v => if i <? Timed_Time v then PGet else PReturn (Returns v)
           | PGet => PGetting
           | PResult => PReturn (Returns (val mem))
           | PReturn r => PDone r
           | _ => p'
           end
  end.
Proof.
  intros H.
  assert (Hlock : forall (m : M RWMutex unit) k h,
             (forall l, snd (m l e) = e) ->
             advance (in_lock m) k h mem e = Some (p', mem', e') ->
             (forall x, m (lock mem) e <> (Panic x, lock mem', e')) ->
             val mem' = val mem /\ getter_calls e' = getter_calls e /\ p' = k tt).
  { intros m k h Hm Ha Hx. apply advance_inv in Ha. unfold in_lock, zoom in Ha.
    specialize (Hm (lock mem)).
    destruct (m (lock mem) e) as [[r l'] e1] eqn:E. simpl in Hm. subst e1.
    destruct Ha as [([] & [= -> <- <-] & ->)|(x & [= -> <- <-] & _)]; auto.
    destruct (Hx x). reflexivity. }
  destruct p; cbn [Dedup_step] in H.
  - apply Hlock in H; auto.
    + intros l. unfold RWMutex_RLock. now destruct (writer l).
    + intros x. unfold RWMutex_RLock. now destruct (writer (lock mem)).
  - unfold advance, gets in H. injection H as <- <- <-. auto.
  - apply Hlock in H; auto.
    + intros l. unfold RWMutex_RUnlock. now destruct (readers l).
    + intros x. unfold RWMutex_RUnlock. now destruct (readers (lock mem)).
  - unfold advance, IsExpired, invoke, Inst_IsExpired, time_After in H.
    simpl in H. injection H as <- <- <-. unfold getter_calls. simpl.
    rewrite filter_app. simpl. rewrite app_nil_r.
    destruct (i <? Timed_Time v); auto.
  - apply Hlock in H; auto.
    + intros l. unfold RWMutex_Lock. now destruct (readers l), (writer l).
    + intros x. unfold RWMutex_Lock.
      now destruct (readers (lock mem)), (writer (lock mem)).
  - unfold advance, gets in H. injection H as <- <- <-. auto.
  - unfold advance, IsExpired, invoke, Inst_IsExpired, time_After in H.
    simpl in H. injection H as <- <- <-. unfold getter_calls. simpl.
    rewrite filter_app. simpl. rewrite app_nil_r.
    destruct (i <? Timed_Time v); auto.
  - injection H as <- <- <-. auto.
  - unfold advance, in_val, in_Either, zoom in H.
    destruct (Either_SetGetter (Some gg) (Timed_Either (val mem)) e)
      as [[r x] e1] eqn:E.
    destruct (Either_SetGetter_total (Some gg) (Timed_Either (val mem)) e)
      as (x' & e1' & E'). rewrite E' in E. injection E as <- <- <-.
    injection H as <- <- <-. simpl. repeat split.
    rewrite (SetGetter_getter_calls _ _ _ _ _ _ E'), length_app. simpl. lia.
  - unfold advance, in_val, zoom, Timed_SetTimer, defer_recover, bind, invoke,
      Inst_Time in H. simpl in H. injection H as <- <- <-. simpl.
    repeat split. unfold getter_calls. simpl. rewrite filter_app. simpl.
    apply app_nil_r.
  - unfold advance, gets in H. injection H as <- <- <-. auto.
  - apply Hlock in H; auto.
    + intros l. unfold RWMutex_Unlock. now destruct (writer l).
    + intros x. unfold RWMutex_Unlock. now destruct (writer (lock mem)).
  - discriminate H.
Qed.
Lemma settled_val (i : time_Time) mem mem' g :
  val mem' = val mem -> settled i mem g -> settled i mem' g.
Proof. unfold settled. intros ->. auto. Qed.

Lemma settled_stale (i : time_Time) mem mem' g :
  i < Timed_Time (val mem) -> holds_write g = false ->
  settled i mem g -> settled i mem' g.
Proof.
  unfold settled, holds_write. intros Hst.
  destruct (go_pc g); intros Hw H; try discriminate Hw; try exact I.
  - destruct H as [->|H]; auto.
  - destruct H as [_ H]. lia.
Qed.

Lemma uses_Inst_inv (i j : time_Time) g :
  uses_Inst i j g ->
  exists gg, g = mkGo (Some gg) (Some (Inst_Time j)) (Some (Inst_IsExpired i))
                      (go_pc g).
Proof.
  destruct g as [get time exp p]. unfold uses_Inst. simpl.
  intros (Hg & -> & ->). destruct get as [gg|]; [eauto|contradiction].
Qed.

Lemma once_step (i j : time_Time) (v0 : Timed) (a b : pool) :
  j <= i -> once_invariant i j v0 a -> step a b -> once_invariant i j v0 b.
Proof.
  intros Hji (Hinv & Ho & Hs & Hu) Hstep.
  pose proof (step_invariant a b Hinv Hstep) as Hinv'.
  destruct Hinv as [(Hw & _ & _) Hsee].
  destruct Hstep as [l1 g l2 mem e p' mem' e' H]. simpl in *.
  split; [exact Hinv'|]. clear Hinv'.
  apply Forall_app in Hu. destruct Hu as [Hu1 Hu2].
  inversion Hu2 as [|g0 l0 Hug Hu2' E]; subst g0 l0. clear Hu2.
  apply Forall_app in Hs. destruct Hs as [Hs1 Hs2].
  inversion Hs2 as [|g0 l0 Hsg Hs2' E]; subst g0 l0. clear Hs2.
  apply Forall_app in Hsee. destruct Hsee as [_ Hsee2].
  inversion Hsee2 as [|g0 l0 Hseeg _ E]; subst g0 l0. clear Hsee2.
  destruct (uses_Inst_inv i j g Hug) as (gg & Eg).
  destruct g as [get time exp p]. simpl in Eg. injection Eg as -> -> ->.
  simpl in H. apply Inst_step in H.
  assert (Huses : Forall (uses_Inst i j)
                    (l1 ++ at_pc (mkGo (Some gg) (Some (Inst_Time j))
                                       (Some (Inst_IsExpired i)) p) p' :: l2)).
  { apply Forall_insert; assumption. }
  unfold once in Ho |- *. simpl in Ho |- *.
  rewrite !count_app in Ho |- *. rewrite count_app in Hw.
  (* the goroutines beside a writer are outside the write region *)
  assert (Halone : holds_write (mkGo (Some gg) (Some (Inst_Time j))
                                     (Some (Inst_IsExpired i)) p) = true ->
            (count at_get l1 = 0 /\ count at_get l2 = 0 /\
             count at_time l1 = 0 /\ count at_time l2 = 0)%nat /\
            Forall (fun g => holds_write g = false) l1 /\
            Forall (fun g => holds_write g = false) l2).
  { intros Hg. rewrite Hg in Hw.
    assert (count holds_write l1 = 0 /\ count holds_write l2 = 0)%nat as [Z1 Z2]
      by (destruct (writer (lock mem)); lia).
    assert (Hle : forall f l, (forall g, f g = true -> holds_write g = true) ->
                     count holds_write l = 0%nat -> count f l = 0%nat).
    { intros f l Hf Hz. pose proof (count_le f holds_write l Hf). lia. }
    assert (Hag : forall g, at_get g = true -> holds_write g = true)
      by (intros g; unfold at_get, holds_write; destruct (go_pc g); auto).
    assert (Hat : forall g, at_time g = true -> holds_write g = true)
      by (intros g; unfold at_time, holds_write; destruct (go_pc g); auto).
    repeat split; auto using count_zero. }
  assert (Hkeep : val mem' = val mem ->
            Forall (settled i mem') l1 /\ Forall (settled i mem') l2).
  { intros Hv. split.
    - apply (Forall_impl _ (fun g => settled_val i mem mem' g Hv) Hs1).
    - apply (Forall_impl _ (fun g => settled_val i mem mem' g Hv) Hs2'). }
  remember (count at_get l1) as A1. remember (count at_get l2) as A2.
  remember (count at_time l1) as T1. remember (count at_time l2) as T2.
  remember (List.length (getter_calls e)) as c.
  remember (List.length (getter_calls e')) as c'.
  unfold at_pc, at_get, at_time in Ho |- *.
  unfold settled in Hsg. unfold sees_stored in Hseeg.
  unfold holds_write in Halone.
  simpl in Ho, Hsg, Hseeg, Halone |- *.
  assert (Hsame : val mem' = val mem -> getter_calls e' = getter_calls e ->
            match p' with PGet | PGetting | PTime => False | _ => True end ->
            match p with PGet | PGetting | PTime => False | _ => True end ->
            settled i mem' (mkGo (Some gg) (Some (Inst_Time j))
                                 (Some (Inst_IsExpired i)) p') ->
            (if i <? Timed_Time (val mem')
             then i < Timed_Time v0 /\
                  ((c' = 0 /\
                    T1 + (if match p' with PTime => true | _ => false end
                          then 1 else 0) + T2 = 0)%nat \/
                   (c' = 1 /\
                    T1 + (if match p' with PTime => true | _ => false end
                          then 1 else 0) + T2 = 1 /\
                    A1 + (if match p' with PGet | PGetting => true | _ => false end
                          then 1 else 0) + A2 = 0)%nat)
             else (A1 + (if match p' with PGet | PGetting => true | _ => false end
                         then 1 else 0) + A2 = 0 /\
                   T1 + (if match p' with PTime => true | _ => false end
                         then 1 else 0) + T2 = 0)%nat /\
                  (if i <? Timed_Time v0
                   then c' = 1%nat /\ Timed_Time (val mem') = j
                   else c' = 0%nat /\ val mem' = v0)) /\
            Forall (settled i mem')
              (l1 ++ mkGo (Some gg) (Some (Inst_Time j))
                          (Some (Inst_IsExpired i)) p' :: l2) /\
            Forall (uses_Inst i j)
              (l1 ++ mkGo (Some gg) (Some (Inst_Time j))
                          (Some (Inst_IsExpired i)) p' :: l2)).
  { intros Hv Hc Hp' Hp Hset. destruct (Hkeep Hv) as [K1 K2].
    split; [|split; [apply Forall_insert; assumption|exact Huses]].
    rewrite Hv. subst c c'. rewrite Hc.
    destruct p; try contradiction; destruct p'; try contradiction; exact Ho. }
  destruct p.
  - destruct H as (Hv & Hc & ->). apply Hsame; auto; exact I.
  - destruct H as (Hv & Hc & ->). apply Hsame; auto; exact I.
  - destruct H as (Hv & Hc & ->). apply Hsame; auto.
    unfold settled. simpl. rewrite Hv. auto.
  - destruct H as (Hv & Hc & ->).
    destruct (i <? Timed_Time v) eqn:Ev; apply Hsame; auto.
    unfold settled. simpl. rewrite Hv. apply Z.ltb_ge in Ev.
    destruct Hsg as [->|Hsg]; [split; [reflexivity|exact Ev]|lia].
  - destruct H as (Hv & Hc & ->). apply Hsame; auto; exact I.
  - destruct H as (Hv & Hc & ->). apply Hsame; auto; exact I.
  - destruct H as (Hv & Hc & ->). subst v.
    destruct (i <? Timed_Time (val mem)) eqn:Ev.
    + (* the state is still expired: the goroutine goes on to [SetGetter] *)
      destruct (Halone eq_refl) as ((Z1 & Z2 & Z3 & Z4) & _).
      destruct (Hkeep Hv) as [K1 K2].
      split; [|split; [apply Forall_insert; auto; exact I|exact Huses]].
      rewrite Hv, Ev. subst c c'. rewrite Hc.
      destruct Ho as [Hv0 Ho]. split; [exact Hv0|]. left. lia.
    + apply Hsame; auto.
      unfold settled. simpl. rewrite Hv. apply Z.ltb_ge in Ev. auto.
  - destruct H as (Hv & Hc & ->).
    destruct (Hkeep Hv) as [K1 K2].
    split; [|split; [apply Forall_insert; auto; exact I|exact Huses]].
    rewrite Hv. subst c c'. rewrite Hc. exact Ho.
  - (* the getter has been called *)
    destruct H as (-> & Hv & Hc).
    destruct (Halone eq_refl) as ((Z1 & Z2 & Z3 & Z4) & W1 & W2).
    rewrite Hv. destruct (i <? Timed_Time (val mem)) eqn:Ev; [|lia].
    apply Z.ltb_lt in Ev. destruct Ho as [Hv0 Ho].
    split; [split; [exact Hv0|right; lia]|].
    split; [|exact Huses].
    apply Forall_insert; [|exact I|].
    + rewrite Forall_forall in *. intros g Hg.
      apply (settled_stale i mem); [exact Ev|exact (W1 g Hg)|exact (Hs1 g Hg)].
    + rewrite Forall_forall in *. intros g Hg.
      apply (settled_stale i mem); [exact Ev|exact (W2 g Hg)|exact (Hs2' g Hg)].
  - (* the timestamp has been set *)
    destruct H as (-> & Hv & Hc).
    destruct (Halone eq_refl) as ((Z1 & Z2 & Z3 & Z4) & W1 & W2).
    destruct (i <? Timed_Time (val mem)) eqn:Ev; [|lia].
    apply Z.ltb_lt in Ev. destruct Ho as [Hv0 Ho].
    rewrite Hv. rewrite (proj2 (Z.ltb_ge i j) Hji).
    rewrite (proj2 (Z.ltb_lt i (Timed_Time v0)) Hv0).
    subst c c'. rewrite Hc.
    split; [split; [lia|split; [lia|reflexivity]]|].
    split; [|exact Huses].
    apply Forall_insert; [|unfold settled; simpl; lia|].
    + rewrite Forall_forall in *. intros g Hg.
      apply (settled_stale i mem); [exact Ev|exact (W1 g Hg)|exact (Hs1 g Hg)].
    + rewrite Forall_forall in *. intros g Hg.
      apply (settled_stale i mem); [exact Ev|exact (W2 g Hg)|exact (Hs2' g Hg)].
  - destruct H as (Hv & Hc & ->). apply Hsame; auto.
    unfold settled. simpl. rewrite Hv. auto.
  - destruct H as (Hv & Hc & ->). apply Hsame; auto.
    unfold settled. simpl. rewrite Hv. exact Hsg.
  - contradiction.
Qed.
Lemma once_start (i j : time_Time) (v0 : Timed) (e : env) (gs : list goroutine) :
  Forall (fun g => go_pc g = PStart /\ uses_Inst i j g) gs ->
  getter_calls e = [] ->
  once_invariant i j v0 (mkPool (NewMem v0) e gs).
Proof.
  intros Hgs He.
  assert (Hstart : Forall (fun g => go_pc g = PStart) gs)
    by (eapply Forall_impl; [|exact Hgs]; now intros g [H _]).
  assert (Hc : forall f, (forall g, go_pc g = PStart -> f g = false) ->
                         count f gs = 0%nat).
  { intros f Hf. unfold count. induction Hstart as [|g gs Hg _ IH];
      [reflexivity|].
    simpl. rewrite (Hf g Hg). apply IH. now inversion Hgs. }
  split; [apply reachable_invariant, reachable_start, Hstart|].
  split; [|split].
  - unfold once. simpl. rewrite He. simpl.
    rewrite (Hc at_get), (Hc at_time);
      try (intros g Hg; unfold at_get, at_time; now rewrite Hg).
    destruct (i <? Timed_Time v0) eqn:Ev.
    + apply Z.ltb_lt in Ev. auto.
    + auto.
  - eapply Forall_impl; [|exact Hstart]. intros g Hg.
    unfold settled. now rewrite Hg.
  - eapply Forall_impl; [|exact Hgs]. now intros g [_ H].
Qed.

Lemma once_steps (i j : time_Time) (v0 : Timed) (n : nat) (a b : pool) :
  j <= i -> steps n a b -> once_invariant i j v0 a -> once_invariant i j v0 b.
Proof.
  intros Hji H. induction H as [q|n a b c Hab _ IH]; [auto|].
  intros Ha. apply IH. exact (once_step i j v0 a b Hji Ha Hab).
Qed.

Lemma run_schedule_steps sched q q' :
  run_schedule sched q = Some q' -> steps (List.length sched) q q'.
Proof.
  revert q. induction sched as [|i rest IH]; intros q H; simpl in H.
  - injection H as <-. constructor.
  - destruct (step_at i (pool_gos q) (pool_mem q) (pool_env q))
      as [[[gs' mem'] e']|] eqn:E; [|discriminate].
    apply step_at_step in E. simpl.
    apply (steps_more _ q (mkPool mem' e' gs') q'); [|exact (IH _ H)].
    destruct q; exact E.
Qed.

Lemma steps_reachable n a b : reachable a -> steps n a b -> reachable b.
Proof.
  intros Ha H. induction H as [q|n a b c Hab _ IH]; [exact Ha|].
  apply IH. exact (reachable_step a b Ha Hab).
Qed.

(** X18: one refresh for all.  Goroutines, however many and however
    interleaved, call [Dedup] on a cache with some getter each, the timer
    [Inst(j)] and the expirer [Inst(i)], [j <= i], and no getter has been
    called before.  Then at most one getter is ever called.  If the state
    they find is stamped at or before [i], none is called and the state
    stays.  Every call that is over has returned the state that is stored,
    so all callers get the same result.  If the state they find is stamped
    after [i], then as soon as a call is over exactly one getter has been
    called and the stored state is stamped [j]. *)
Theorem X18_one_refresh_for_all
    (i j : time_Time) (v0 : Timed) (e : env) (gs : list goroutine)
    (n : nat) (q : pool) :
  j <= i ->
  Forall (fun g => go_pc g = PStart /\ uses_Inst i j g) gs ->
  getter_calls e = [] ->
  steps n (mkPool (NewMem v0) e gs) q ->
  let stored := val (pool_mem q) in
  (List.length (getter_calls (pool_env q)) <= 1)%nat /\
  (Timed_Time v0 <= i -> getter_calls (pool_env q) = [] /\ stored = v0) /\
  (forall g r, In g (pool_gos q) -> go_pc g = PDone r ->
     r = Returns stored /\ Timed_Time stored <= i) /\
  (i < Timed_Time v0 ->
   (exists g, In g (pool_gos q) /\ is_done g = true) ->
   List.length (getter_calls (pool_env q)) = 1%nat /\ Timed_Time stored = j).
Proof.
  intros Hji Hgs He Hsteps stored.
  destruct (once_steps i j v0 n _ q Hji Hsteps (once_start i j v0 e gs Hgs He))
    as (_ & Ho & Hs & _).
  unfold once in Ho. fold stored in Ho.
  assert (Hdone : forall g r, In g (pool_gos q) -> go_pc g = PDone r ->
                    r = Returns stored /\ Timed_Time stored <= i).
  { intros g r Hin Hg. rewrite Forall_forall in Hs. specialize (Hs g Hin).
    unfold settled in Hs. now rewrite Hg in Hs. }
  split; [|split; [|split]].
  - destruct (i <? Timed_Time stored).
    + destruct Ho as [_ [[-> _]|[-> _]]]; lia.
    + destruct Ho as [_ Ho]. destruct (i <? Timed_Time v0);
        destruct Ho as [-> _]; lia.
  - intros Hv0. destruct (i <? Timed_Time stored).
    + destruct Ho as [Ho _]. lia.
    + destruct Ho as [_ Ho].
      rewrite (proj2 (Z.ltb_ge i (Timed_Time v0)) Hv0) in Ho.
      destruct Ho as [Hc ->]. split; [|reflexivity].
      now apply length_zero_iff_nil.
  - exact Hdone.
  - intros Hv0 (g & Hin & Hg). unfold is_done in Hg.
    destruct (go_pc g) as [| | | | | | | | | | | |r] eqn:Epc; try discriminate Hg.
    destruct (Hdone g r Hin Epc) as [_ Hfresh].
    rewrite (proj2 (Z.ltb_ge i (Timed_Time stored)) Hfresh) in Ho.
    rewrite (proj2 (Z.ltb_lt i (Timed_Time v0)) Hv0) in Ho.
    now destruct Ho as [_ Ho].
Qed.

(** ** Caching for a duration; refreshing wholesale *)

(** X19: [NowTimer] with [Duration(d)], as in the package's example.  The
    state is too old at both checks of the first call; the getter returns
    [a]; the timer reads the clock at [n3]; at the check of the second
    call the clock reads [n4], no more than [d] after [n3].  Then the
    second call returns what the first has returned, [a] stamped [n3], and
    the getter has been called once. *)
Theorem X19_NowTimer_with_Duration
    (g : method value) (d : time_Duration) (v : Timed) (e : env)
    (a : value) (w3 : W) :
  let n1 := fst (time_Now (world e)) in
  let w1 := snd (time_Now (world e)) in
  let n2 := fst (time_Now w1) in
  let w2 := snd (time_Now w1) in
  let n3 := fst (time_Now w3) in
  let w4 := snd (time_Now w3) in
  let n4 := fst (time_Now w4) in
  let w5 := snd (time_Now w4) in
  let r := MakeTimed a n3 in
  Timed_Time v + d < n1 ->
  Timed_Time v + d < n2 ->
  g w2 = (Returns a, w3) ->
  n4 <= n3 + d ->
  Dedup_times 2 (Some g) (Some NowTimer_Time) (Some (Duration_IsExpired d))
              (NewMem v) e
  = (Ret [r; r], NewMem r,
     mkEnv w5 (calls e ++ [CallIsExpired v; CallIsExpired v; CallGet; CallTime;
                           CallIsExpired r])).
Proof.
  intros n1 w1 n2 w2 n3 w4 n4 w5 r H1 H2 Hg H4.
  set (exp := Some (Duration_IsExpired d)).
  set (e1 := mkEnv w1 (calls e ++ [CallIsExpired v])).
  set (e2 := mkEnv w2 (calls e1 ++ [CallIsExpired v])).
  set (e3 := mkEnv w3 (calls e2 ++ [CallGet])).
  set (e4 := mkEnv w4 (calls e3 ++ [CallTime])).
  assert (E1 : IsExpired exp v tt e = (Ret true, tt, e1)).
  { unfold exp, IsExpired, invoke. rewrite Duration_IsExpired_run.
    fold n1 w1. now rewrite (proj2 (Z.ltb_lt _ _) H1). }
  assert (E2 : IsExpired exp v tt e1 = (Ret true, tt, e2)).
  { unfold exp, IsExpired, invoke. simpl world. rewrite Duration_IsExpired_run.
    fold n2 w2. now rewrite (proj2 (Z.ltb_lt _ _) H2). }
  assert (E3 : Either_SetGetter (Some g) (Timed_Either v) e2
               = (Ret tt, mkEither a, e3)).
  { apply Either_SetGetter_returns. exact Hg. }
  assert (E4 : Timed_SetTimer (Some NowTimer_Time)
                 (mkTimed (mkEither a) (Timed_Time v)) e3 = (Ret tt, r, e4)).
  { rewrite (Timed_SetTimer_returns NowTimer_Time _ e3 n3 w4); [reflexivity|].
    unfold NowTimer_Time. simpl world. fold n3 w4.
    now destruct (time_Now w3). }
  pose proof (Mem_Dedup_refresh _ _ _ _ _ _ _ _ _ _ _ E1 E2 E3 E4) as Hfirst.
  pose proof (Duration_hit (Some g) (Some NowTimer_Time) d RWMutex_zero r e4
                eq_refl H4) as Hsecond.
  unfold Dedup_times.
  erewrite bind_Ret by exact Hfirst. cbv beta.
  erewrite bind_Ret by (erewrite bind_Ret by exact Hsecond; reflexivity).
  unfold ret, NewMem, e4, e3, e2, e1. simpl. rewrite <- !app_assoc.
  reflexivity.
Qed.

(** X20: a refresh replaces the state wholesale.  When the state is expired
    at both checks, the getter is nil or does not panic with nil, and the
    timer is nil or returns, [Dedup] returns and stores what [SetGetter]
    and [SetTimer] make of the empty [Timed{}]: nothing of the stale state
    is left.  This is what the package's tests compare [Dedup] with. *)
Theorem X20_refresh_is_wholesale
    (get : Getter) (time : Timer) (exp : Expirer) (v : Timed) (e e1 e2 : env) :
  IsExpired exp v tt e = (Ret true, tt, e1) ->
  IsExpired exp v tt e1 = (Ret true, tt, e2) ->
  (forall g, get = Some g -> not_nil_panic (fst (g (world e2)))) ->
  (forall c w, time = Some c -> exists inst, fst (c w) = Returns inst) ->
  exists expected e4,
    (in_Either (Either_SetGetter get) ;; Timed_SetTimer time) Timed_zero e2
      = (Ret tt, expected, e4) /\
    Mem_Dedup get time exp (NewMem v) e = (Ret expected, NewMem expected, e4).
Proof.
  intros H1 H2 Hget Htime.
  assert (Hg : exists x e3, forall self,
             Either_SetGetter get self e2 = (Ret tt, x, e3)).
  { destruct get as [g|].
    - specialize (Hget g eq_refl).
      destruct (g (world e2)) as [[a|p] w3] eqn:Eg.
      + exists (mkEither a), (mkEnv w3 (calls e2 ++ [CallGet])). intros self.
        apply (Either_SetGetter_returns g self e2 a w3 Eg).
      + exists (mkEither p), (mkEnv w3 (calls e2 ++ [CallGet])). intros self.
        pose proof (Either_SetGetter_panics g self e2 p w3 Eg) as X.
        unfold not_nil_panic in Hget. simpl in Hget.
        destruct p; try contradiction; exact X.
    - exists (mkEither VNil), e2. intros self. reflexivity. }
  destruct Hg as (x & e3 & Hg).
  assert (Ht : exists inst e4, forall t,
             Timed_SetTimer time t e3
             = (Ret tt, mkTimed (Timed_Either t) inst, e4)).
  { destruct time as [c|].
    - destruct (Htime c (world e3) eq_refl) as (inst & Hc).
      destruct (c (world e3)) as [r w4] eqn:Ec. simpl in Hc. subst r.
      exists inst, (mkEnv w4 (calls e3 ++ [CallTime])). intros t.
      apply (Timed_SetTimer_returns c t e3 inst w4 Ec).
    - exists time_zero, e3. intros t. reflexivity. }
  destruct Ht as (inst & e4 & Ht).
  exists (mkTimed x inst), e4. split.
  - erewrite bind_Ret
      by (unfold in_Either, zoom; rewrite (Hg (Timed_Either Timed_zero));
          reflexivity).
    apply Ht.
  - apply (Mem_Dedup_refresh get time exp v e e1 e2 e3 e4 x (mkTimed x inst)
             H1 H2 (Hg _)).
    apply Ht.
Qed.

End Ded.

Arguments Ret {W A} a.
Arguments Panic {W A} v.
Arguments Block {W A}.
Arguments Fatal {W A}.

(** * The properties at concrete inputs

    The world is a clock reading (an integer), and [time.Now()] returns
    it. *)

Local Open Scope string_scope.

(** C1 at a cache holding "v1", with a getter and a timer that would panic
    if they were called, and the expirer [BoolExpirer(false)]: one call,
    and three calls in a row. *)
Lemma C1_fresh_read_witness :
  let v : @Timed Z := MakeTimed (VStr "v1") 5 in
  let get : Getter := Some (panicking (VStr "getter called")) in
  let time : Timer := Some (panicking (VStr "timer called")) in
  let exp : Expirer := Some (BoolExpirer_IsExpired false) in
  Mem_Dedup get time exp (NewMem v) (mkEnv 0 [])
    = (Ret v, NewMem v, mkEnv 0 [CallIsExpired v]) /\
  Dedup_times 3 get time exp (NewMem v) (mkEnv 0 [])
    = (Ret [v; v; v], NewMem v,
       mkEnv 0 [CallIsExpired v; CallIsExpired v; CallIsExpired v]).
Proof.
  intros v get time exp.
  destruct (C1_fresh_read_is_idempotent get time exp RWMutex_zero v eq_refl)
    as [H1 H2].
  split.
  - apply (H1 (mkEnv 0 []) (mkEnv 0 [CallIsExpired v])). reflexivity.
  - apply (H2 3%nat (mkEnv 0 [])
              (mkEnv 0 [CallIsExpired v; CallIsExpired v; CallIsExpired v])).
    reflexivity.
Defined.

(** C2 at the empty cache: scenario A. *)
Lemma C2_refresh_witness :
  let r : @Timed Z := MakeTimed (VStr "v1") 7 in
  Mem_Dedup (Either_as_Getter (mkEither (VStr "v1"))) (Some (Inst_Time 7))
            (Some Void_IsExpired) (NewMem Timed_zero) (mkEnv 0 [])
    = (Ret r, NewMem r,
       mkEnv 0 [CallIsExpired Timed_zero; CallIsExpired Timed_zero;
                CallGet; CallTime]) /\
  Either_Get (Timed_Either r) = Returns (VStr "v1") /\
  Timed_Time r = 7.
Proof.
  intros r.
  exact (proj2 (C2_refresh_sets_value_then_timestamp
                  (Either_as_Getter (mkEither (VStr "v1"))) (Some (Inst_Time 7))
                  (Some Void_IsExpired) Timed_zero
                  (mkEnv 0 []) (mkEnv 0 [CallIsExpired Timed_zero])
                  (mkEnv 0 [CallIsExpired Timed_zero; CallIsExpired Timed_zero])
                  eq_refl eq_refl) 7 0).
Defined.

(** C3 with a clock that panics with an error, on a result that holds
    "v1" stamped 5. *)
Lemma C3_clock_failure_witness :
  Timed_SetTimer (Some (panicking (VErr "clock down")))
                 (MakeTimed (VStr "v1") 5) (mkEnv 0 [])
  = (Ret tt, MakeTimed (VErr "clock down") 5, mkEnv 0 [CallTime]).
Proof.
  exact (proj1 (C3_clock_failure_goes_to_value_slot
                  (panicking (VErr "clock down")) (MakeTimed (VStr "v1") 5)
                  (mkEnv 0 []) (VErr "clock down") 0 eq_refl eq_refl)).
Defined.

(** C4 with a getter that panics with the error "boom". *)
Lemma C4_failure_round_trip_witness :
  let tar : @Either Z := mkEither (VErr "boom") in
  Either_SetGetter (Some (panicking (VErr "boom"))) (mkEither VNil) (mkEnv 0 [])
    = (Ret tt, tar, mkEnv 0 [CallGet]) /\
  Either_Get tar = Panics (VErr "boom") /\
  Get_times 2 tar (mkEnv 0 [CallGet])
    = (Ret [Panics (VErr "boom"); Panics (VErr "boom")], tar, mkEnv 0 [CallGet]).
Proof.
  intros tar.
  destruct (C4_failure_round_trip (panicking (VErr "boom")) (mkEither VNil)
              (mkEnv 0 []) "boom" 0 eq_refl) as (H1 & H2 & H3 & _).
  split; [exact H1|]. split; [exact H2|].
  exact (H3 2%nat (mkEnv 0 [CallGet])).
Defined.

(** C5 with a getter that panics with "boom" and one that returns it. *)
Lemma C5_SetGetter_witness :
  Either_SetGetter (Some (panicking (VErr "boom"))) (mkEither (VInt 1))
                   (mkEnv 0 [])
  = Either_SetGetter (Some (returning (VErr "boom"))) (mkEither (VInt 1))
                     (mkEnv 0 []).
Proof.
  destruct (C5_SetGetter_never_raises (Some (panicking (VErr "boom")))
              (mkEither (VInt 1)) (mkEnv 0 [])) as (_ & H & _).
  exact (proj2 (H (panicking (VErr "boom")) (returning (VErr "boom")) "boom" 0
                  eq_refl eq_refl eq_refl)).
Defined.

(** C7 at the duration -5 with the clock at 10: a state stamped 15 is
    fresh, and its timestamp lies in the future. *)
Lemma C7_Duration_witness :
  Duration_IsExpired (fun w : Z => (w, w)) (-5) (MakeTimed VNil 15) 10
    = (Returns false, 10) /\
  10 < 15.
Proof.
  destruct (C7_Duration_expiry (fun w : Z => (w, w)) (-5) (MakeTimed VNil 15) 10)
    as (expired & H1 & _ & _ & H4).
  split; [reflexivity|].
  apply H4; [reflexivity|].
  vm_compute in H1. now injection H1 as <-.
Defined.

(** C7 as it was stated fails on the boundary: with the duration -5 and
    the clock at 10, the state stamped 15 is fresh, and 15 is not more
    than 5 after 10. *)
Lemma C7_more_than_counterexample :
  ~ (forall (d : time_Duration) (v : @Timed Z) (w : Z),
       d < 0 ->
       Duration_IsExpired (fun w : Z => (w, w)) d v w = (Returns false, w) ->
       w + Z.abs d < Timed_Time v).
Proof.
  intros H. specialize (H (-5) (MakeTimed VNil 15) 10 eq_refl eq_refl).
  vm_compute in H. discriminate H.
Qed.

(** C9 with a getter that would return "v1". *)
Lemma C9_Get_witness :
  Get (Some (returning (VStr "v1"))) tt (mkEnv 0 [])
  = (Ret (VGetter (returning (VStr "v1"))), tt, mkEnv 0 []).
Proof.
  exact (proj1 (C9_Get_returns_the_getter (Some (returning (VStr "v1"))) tt
                  (mkEnv 0 [])) (returning (VStr "v1")) eq_refl).
Defined.

(** C10 with an expirer that panics at once, and with one that says
    expired while the clock reads 0 and panics afterwards. *)
Lemma C10_expirer_panic_witness :
  let v : @Timed Z := MakeTimed (VStr "v1") 5 in
  let get : Getter := Some (returning (VStr "v2")) in
  let time : Timer := Some (Inst_Time 9) in
  let bad : Expirer := Some (fun _ => panicking (VErr "no policy")) in
  let late : Expirer :=
    Some (fun _ w => if Z.eqb w 0 then (Returns true, 1)
                     else (Panics (VErr "no policy"), w)) in
  Mem_Dedup get time bad (NewMem v) (mkEnv 0 [])
    = (Panic (VErr "no policy"), NewMem v, mkEnv 0 [CallIsExpired v]) /\
  Mem_Dedup get time late (NewMem v) (mkEnv 0 [])
    = (Panic (VErr "no policy"), NewMem v,
       mkEnv 1 [CallIsExpired v; CallIsExpired v]).
Proof.
  intros v get time bad late. split.
  - exact (proj1 (C10_expirer_panic_propagates get time bad v
                    (VErr "no policy") (mkEnv 0 []) (mkEnv 0 [CallIsExpired v])
                    (mkEnv 0 []))
             RWMutex_zero eq_refl eq_refl).
  - exact (proj2 (C10_expirer_panic_propagates get time late v
                    (VErr "no policy") (mkEnv 0 []) (mkEnv 1 [CallIsExpired v])
                    (mkEnv 1 [CallIsExpired v; CallIsExpired v]))
             eq_refl eq_refl).
Defined.

(** C8 with two goroutines that both find the empty cache expired: the
    first takes the write lock and starts its getter; the second waits at
    [Lock], and one getter is running. *)
Lemma C8_one_refresh_witness :
  let g (p : pc) : @goroutine Z :=
    mkGo (Some (returning (VStr "v1"))) (Some (Inst_Time 7))
         (Some Void_IsExpired) p in
  let start := mkPool (NewMem Timed_zero) (mkEnv 0 []) [g PStart; g PStart] in
  let q :=
    mkPool (mkMem (mkRWMutex 0 true) Timed_zero)
           (mkEnv 0 [CallIsExpired Timed_zero; CallIsExpired Timed_zero;
                     CallIsExpired Timed_zero])
           [g PGetting; g PLock] in
  run_schedule [0; 0; 0; 0; 1; 1; 1; 1; 0; 0; 0; 0]%nat start = Some q /\
  step_at 1 (pool_gos q) (pool_mem q) (pool_env q) = None /\
  (count in_flight (pool_gos q) <= 1)%nat.
Proof.
  intros g start q.
  assert (Hrun : run_schedule [0; 0; 0; 0; 1; 1; 1; 1; 0; 0; 0; 0]%nat start
                 = Some q) by reflexivity.
  assert (Hstart : reachable start).
  { apply reachable_start. repeat constructor. }
  split; [exact Hrun|]. split; [reflexivity|].
  exact (proj1 (C8_one_refresh_at_a_time q
                  (run_schedule_reachable _ start q Hstart Hrun))).
Defined.

(** * The package's tests and examples, run on the model *)

(** [Test_Either_Unwrap] *)
Example Test_Either_Unwrap :
  Either_Unwrap (W := Z) (mkEither VNil) = (VNil, None) /\
  Either_Unwrap (W := Z) (mkEither (VInt 10)) = (VInt 10, None) /\
  Either_Unwrap (W := Z) (mkEither (VStr "val")) = (VStr "val", None) /\
  Either_Unwrap (W := Z) (mkEither (VErr "some error"))
    = (VNil, Some "some error").
Proof. repeat split. Qed.

(** [Test_Either_SetGetter], with an [Either] as the getter. *)
Example Test_Either_SetGetter :
  Either_SetGetter (Either_as_Getter (mkEither (VInt 10))) (mkEither VNil)
                   (mkEnv 0 [])
    = (Ret tt, mkEither (VInt 10), mkEnv 0 [CallGet]) /\
  Either_SetGetter (Either_as_Getter (mkEither (VErr "some error")))
                   (mkEither VNil) (mkEnv 0 [])
    = (Ret tt, mkEither (VErr "some error"), mkEnv 0 [CallGet]).
Proof. split; reflexivity. Qed.

(** [Test_Timed_SetTimer_nil] and [Test_Timed_SetTimer_non_nil] *)
Example Test_Timed_SetTimer :
  Timed_SetTimer None (MakeTimed (VStr "val") 5) (mkEnv 0 [])
    = (Ret tt, MakeTimed (VStr "val") time_zero, mkEnv 0 []) /\
  Timed_SetTimer (Some (Inst_Time 8)) (MakeTimed (VStr "val") 5) (mkEnv 0 [])
    = (Ret tt, MakeTimed (VStr "val") 8, mkEnv 0 [CallTime]).
Proof. split; reflexivity. Qed.

(** [Test_Mem_SetTimed], [Test_Mem_Zero] and [Test_Mem_Get] *)
Example Test_Mem_SetTimed_Zero_Get :
  Mem_SetTimed (MakeTimed (VStr "val") 5) (NewMem Timed_zero) (mkEnv 0 [])
    = (Ret tt, NewMem (MakeTimed (VStr "val") 5), mkEnv 0 []) /\
  Mem_Zero (NewMem (MakeTimed (VStr "val") 5)) (mkEnv 0 [])
    = (Ret tt, NewMem Timed_zero, mkEnv 0 []) /\
  Mem_Get (NewMem (MakeTimed (VErr "some error") 5)) (mkEnv 0 [])
    = (Panic (VErr "some error"), NewMem (MakeTimed (VErr "some error") 5),
       mkEnv 0 []).
Proof. repeat split. Qed.

(** [ExampleMem_Dedup]: two calls with [GetterFunc(slowork)], [NowTimer{}]
    and [Duration(time.Minute)]; the clock advances by a nanosecond at each
    reading, from an instant some two thousand years after the zero
    time.  The second call returns what the first has returned, and
    [slowork] is called once. *)
Example ExampleMem_Dedup :
  let now (w : Z) := (w, w + 1) in
  let slowork : method value := returning (VStr "some value") in
  let w0 := 63000000000000000000 in
  let first := MakeTimed (VStr "some value") (w0 + 2) in
  Dedup_times 2 (Some (GetterFunc_Get (Some slowork))) (Some (NowTimer_Time now))
              (Some (Duration_IsExpired now time_Minute))
              (NewMem Timed_zero) (mkEnv w0 [])
    = (Ret [first; first], NewMem first,
       mkEnv (w0 + 4)
             [CallIsExpired Timed_zero; CallIsExpired Timed_zero; CallGet;
              CallTime; CallIsExpired first]) /\
  Either_Get (Timed_Either first) = Returns (VStr "some value").
Proof. split; reflexivity. Qed.

(** [Test_Mem_Dedup_waiting_for_writer]: the writer is inside its slow
    getter; a reader that would find the old state fresh cannot take the
    read lock; when the writer is done the reader goes on and returns the
    new state. *)
Example Test_Mem_Dedup_waiting_for_writer :
  let oldTimed : @Timed Z := MakeTimed (VStr "old value") 1 in
  let newTimed : @Timed Z := MakeTimed (VStr "new value") 2 in
  let writer p :=
    mkGo (Some (returning (VStr "new value"))) (Some (Inst_Time 2))
         (Some (BoolExpirer_IsExpired true)) p in
  let reader p :=
    mkGo (Some (panicking (VStr "getter called")))
         (Some (panicking (VStr "timer called")))
         (Some (BoolExpirer_IsExpired false)) p in
  let start :=
    mkPool (NewMem oldTimed) (mkEnv 0 []) [writer PStart; reader PStart] in
  let q1 :=
    mkPool (mkMem (mkRWMutex 0 true) oldTimed)
           (mkEnv 0 [CallIsExpired oldTimed; CallIsExpired oldTimed])
           [writer PGetting; reader PStart] in
  run_schedule [0; 0; 0; 0; 0; 0; 0; 0]%nat start = Some q1 /\
  step_at 1 (pool_gos q1) (pool_mem q1) (pool_env q1) = None /\
  run_schedule [0; 0; 0; 0; 1; 1; 1; 1]%nat q1
    = Some (mkPool (NewMem newTimed)
              (mkEnv 0 [CallIsExpired oldTimed; CallIsExpired oldTimed;
                        CallGet; CallTime; CallIsExpired newTimed])
              [writer (PDone (Returns newTimed));
               reader (PDone (Returns newTimed))]).
Proof. repeat split; vm_compute; reflexivity. Qed.

(** * The further properties at concrete inputs *)

(** X2 on a cache that two readers hold, storing an error. *)
Lemma X2_Mem_Get_witness :
  let mem : @Mem Z := mkMem (mkRWMutex 2 false) (MakeTimed (VErr "boom") 5) in
  Mem_Get mem (mkEnv 0 []) = (Panic (VErr "boom"), mem, mkEnv 0 []).
Proof.
  intros mem.
  exact (X2_Mem_Get (mkRWMutex 2 false) (MakeTimed (VErr "boom") 5)
           (mkEnv 0 []) eq_refl).
Defined.


(** X7 with a getter that panics with "boom" and the timer [Inst(7)]. *)
Lemma X7_failure_is_cached_witness :
  let cached : @Timed Z := MakeTimed (VErr "boom") 7 in
  Mem_Dedup (Some (panicking (VErr "boom"))) (Some (Inst_Time 7))
            (Some Void_IsExpired) (NewMem Timed_zero) (mkEnv 0 [])
  = (Ret cached, NewMem cached,
     mkEnv 0 [CallIsExpired Timed_zero; CallIsExpired Timed_zero;
              CallGet; CallTime]).
Proof.
  intros cached.
  exact (proj1 (X7_failure_is_cached (panicking (VErr "boom")) (Inst_Time 7)
                  (Some Void_IsExpired) Timed_zero (mkEnv 0 [])
                  (mkEnv 0 [CallIsExpired Timed_zero])
                  (mkEnv 0 [CallIsExpired Timed_zero; CallIsExpired Timed_zero])
                  "boom" 0 0 7 eq_refl eq_refl eq_refl eq_refl)).
Defined.

(** X9 with a getter that returns "v1" and a timer that panics, on a state
    stamped 3. *)
Lemma X9_timer_failure_witness :
  let v : @Timed Z := MakeTimed (VStr "old") 3 in
  let r : @Timed Z := MakeTimed (VErr "clock down") 3 in
  Mem_Dedup (Some (returning (VStr "v1"))) (Some (panicking (VErr "clock down")))
            (Some Void_IsExpired) (NewMem v) (mkEnv 0 [])
  = (Ret r, NewMem r,
     mkEnv 0 [CallIsExpired v; CallIsExpired v; CallGet; CallTime]).
Proof.
  intros v r.
  exact (proj1 (X9_timer_failure_keeps_old_timestamp (fun w : Z => (w, w))
                  (Some (returning (VStr "v1"))) (panicking (VErr "clock down"))
                  (Some Void_IsExpired) v (mkEnv 0 [])
                  (mkEnv 0 [CallIsExpired v])
                  (mkEnv 0 [CallIsExpired v; CallIsExpired v])
                  (mkEnv 0 [CallIsExpired v; CallIsExpired v; CallGet])
                  (mkEither (VStr "v1")) (VErr "clock down") 0
                  eq_refl eq_refl eq_refl eq_refl eq_refl)).
Defined.

(** X10 with the expirer [Inst(10)]: the empty cache stays empty; a state
    stamped 20 is replaced once, by one stamped 5. *)
Lemma X10_Inst_expirer_witness :
  let get : @Getter Z := Some (returning (VStr "v1")) in
  Mem_Dedup get (Some (Inst_Time 5)) (Some (Inst_IsExpired 10))
            (NewMem Timed_zero) (mkEnv 0 [])
    = (Ret Timed_zero, NewMem Timed_zero, mkEnv 0 [CallIsExpired Timed_zero]) /\
  exists x e',
    Dedup_times 2 get (Some (Inst_Time 5)) (Some (Inst_IsExpired 10))
                (NewMem (MakeTimed (VStr "old") 20)) (mkEnv 0 [])
      = (Ret [mkTimed x 5; mkTimed x 5], NewMem (mkTimed x 5), e') /\
    getter_calls e' = [CallGet].
Proof.
  intros get. split.
  - destruct (X10_Inst_expirer get (Some (Inst_Time 5)) 10 Timed_zero
                (mkEnv 0 [])) as (_ & H & _).
    apply H. discriminate.
  - destruct (X10_Inst_expirer get (Some (Inst_Time 5)) 10
                (MakeTimed (VStr "old") 20) (mkEnv 0 [])) as (_ & _ & H).
    exact (H 5 eq_refl ltac:(discriminate)).
Defined.

(** X11 a day and a nanosecond after the timestamp. *)
Lemma X11_shorter_duration_witness :
  let now (w : Z) := (w, w) in
  let v : @Timed Z := MakeTimed VNil 0 in
  fst (ExpireSecond_IsExpired now v 86400000000001) = Returns true.
Proof.
  intros now v.
  destruct (X11_shorter_duration_expires_sooner now v 86400000000001)
    as (_ & H1 & H2 & H3 & _).
  apply H3, H2, H1. reflexivity.
Defined.

(** X12 with a minute's duration: a hit half a minute after the timestamp,
    a miss two minutes after it. *)
Lemma X12_Duration_witness :
  let now (w : Z) := (w, w + 1) in
  let v : @Timed Z := MakeTimed (VStr "v1") 0 in
  let get : Getter := Some (returning (VStr "v2")) in
  Mem_Dedup get (Some (NowTimer_Time now))
            (Some (Duration_IsExpired now time_Minute)) (NewMem v)
            (mkEnv 30000000000 [])
    = (Ret v, NewMem v, mkEnv 30000000001 [CallIsExpired v]) /\
  exists x e3 v' e4,
    Either_SetGetter get (Timed_Either v)
      (mkEnv 120000000002 [CallIsExpired v; CallIsExpired v]) = (Ret tt, x, e3) /\
    Timed_SetTimer (Some (NowTimer_Time now)) (mkTimed x (Timed_Time v)) e3
      = (Ret tt, v', e4) /\
    Mem_Dedup get (Some (NowTimer_Time now))
              (Some (Duration_IsExpired now time_Minute)) (NewMem v)
              (mkEnv 120000000000 [])
      = (Ret v', NewMem v', e4).
Proof.
  intros now v get. split.
  - destruct (X12_Duration_hit_and_miss now get (Some (NowTimer_Time now))
                time_Minute v (mkEnv 30000000000 [])) as [H _].
    apply (H RWMutex_zero eq_refl). discriminate.
  - destruct (X12_Duration_hit_and_miss now get (Some (NowTimer_Time now))
                time_Minute v (mkEnv 120000000000 [])) as [_ H].
    exact (H eq_refl eq_refl).
Defined.

(** X13 with a worker whose cache is half a minute old. *)
Lemma X13_Dedup_facade_witness :
  let now (w : Z) := (w, w + 1) in
  let v : @Timed Z := MakeTimed (VStr "some value") 0 in
  Worker_Fetch now (returning (VStr "some value")) (NewMem v)
               (mkEnv 30000000000 [])
  = (Ret v, NewMem v, mkEnv 30000000001 [CallIsExpired v]).
Proof.
  intros now v.
  destruct (X13_Dedup_facade now tt (returning (VStr "some value"))
              RWMutex_zero v (mkEnv 30000000000 [])) as [_ H].
  apply H; [reflexivity|discriminate].
Defined.

(** X14 with [Void] as the expirer, three calls. *)
Lemma X14_always_expired_witness :
  exists vs v' e',
    Dedup_times 3 (Some (returning (VStr "v1"))) (Some (Inst_Time 7))
                (Some Void_IsExpired) (NewMem Timed_zero) (mkEnv 0 [])
      = (Ret vs, NewMem v', e') /\
    List.length vs = 3%nat /\
    List.length (getter_calls e') = 3%nat /\
    last vs Timed_zero = v'.
Proof.
  refine (X14_always_expired_fetches_every_time
            (returning (VStr "v1")) (Some (Inst_Time 7)) (Some Void_IsExpired)
            _ 3%nat Timed_zero (mkEnv 0 [])).
  intros t e0. eexists. reflexivity.
Defined.

(** X15 on the two goroutines of the witness of C8: twelve steps are taken
    and twelve more at most are left. *)
Lemma X15_every_interleaving_ends_witness :
  let g (p : pc) : @goroutine Z :=
    mkGo (Some (returning (VStr "v1"))) (Some (Inst_Time 7))
         (Some Void_IsExpired) p in
  let start := mkPool (NewMem Timed_zero) (mkEnv 0 []) [g PStart; g PStart] in
  let q :=
    mkPool (mkMem (mkRWMutex 0 true) Timed_zero)
           (mkEnv 0 [CallIsExpired Timed_zero; CallIsExpired Timed_zero;
                     CallIsExpired Timed_zero])
           [g PGetting; g PLock] in
  steps 12 start q /\
  (12 + work_left (pool_gos q) <= work_left (pool_gos start))%nat.
Proof.
  intros g start q.
  assert (Hsteps : steps 12 start q).
  { apply (run_schedule_steps [0; 0; 0; 0; 1; 1; 1; 1; 0; 0; 0; 0]%nat start q).
    reflexivity. }
  split; [exact Hsteps|].
  exact (proj1 (X15_every_interleaving_ends 12 start q Hsteps)).
Defined.


Lemma X17_mutex_accounting_witness :
  let g (p : pc) : @goroutine Z :=
    mkGo (Some (returning (VStr "v1"))) (Some (Inst_Time 7))
         (Some Void_IsExpired) p in
  let q :=
    mkPool (mkMem (mkRWMutex 0 true) Timed_zero)
           (mkEnv 0 [CallIsExpired Timed_zero; CallIsExpired Timed_zero;
                     CallIsExpired Timed_zero])
           [g PGetting; g PLock] in
  reachable q /\ count holds_write (pool_gos q) = 1%nat.
Proof.
  intros g q.
  assert (Hq : reachable q).
  { apply (run_schedule_reachable [0; 0; 0; 0; 1; 1; 1; 1; 0; 0; 0; 0]%nat
             (mkPool (NewMem Timed_zero) (mkEnv 0 []) [g PStart; g PStart])).
    - apply reachable_start. repeat constructor.
    - reflexivity. }
  split; [exact Hq|].
  destruct (X17_mutex_accounting q Hq) as (_ & H & _).
  apply H. reflexivity.
Defined.

(** X18 with two goroutines on a state stamped 20, the expirer [Inst(10)]
    and the timer [Inst(5)]: the first goes through its whole call, the
    second then finds the state fresh; one getter has been called and both
    have the same result. *)
Lemma X18_one_refresh_for_all_witness :
  let g (s : string) (p : pc) : @goroutine Z :=
    mkGo (Some (returning (VStr s))) (Some (Inst_Time 5))
         (Some (Inst_IsExpired 10)) p in
  let v0 := MakeTimed (VStr "old") 20 in
  let r := MakeTimed (VStr "first") 5 in
  let start :=
    mkPool (NewMem v0) (mkEnv 0 []) [g "first" PStart; g "second" PStart] in
  let q :=
    mkPool (NewMem r)
           (mkEnv 0 [CallIsExpired v0; CallIsExpired v0; CallGet; CallTime;
                     CallIsExpired r])
           [g "first" (PDone (Returns r)); g "second" (PDone (Returns r))] in
  run_schedule [0; 0; 0; 0; 0; 0; 0; 0; 0; 0; 0; 0; 1; 1; 1; 1]%nat start
    = Some q /\
  List.length (getter_calls (pool_env q)) = 1%nat.
Proof.
  intros g v0 r start q.
  assert (Hrun : run_schedule [0; 0; 0; 0; 0; 0; 0; 0; 0; 0; 0; 0; 1; 1; 1; 1]%nat
                   start = Some q) by (vm_compute; reflexivity).
  split; [exact Hrun|].
  assert (Hgs : Forall (fun g0 => go_pc g0 = PStart /\ uses_Inst 10 5 g0)
                  [g "first" PStart; g "second" PStart]).
  { repeat constructor; discriminate. }
  assert (Hdone : exists g0, In g0 (pool_gos q) /\ is_done g0 = true).
  { exists (g "first" (PDone (Returns r))). split; [left|]; reflexivity. }
  destruct (X18_one_refresh_for_all 10 5 v0 (mkEnv 0 [])
              [g "first" PStart; g "second" PStart] 16 q
              ltac:(discriminate) Hgs eq_refl
              (run_schedule_steps _ start q Hrun)) as (_ & _ & _ & H).
  exact (proj1 (H eq_refl Hdone)).
Defined.

(** X19 as in [ExampleMem_Dedup]: the clock advances by a nanosecond at
    each reading. *)
Lemma X19_NowTimer_with_Duration_witness :
  let now (w : Z) := (w, w + 1) in
  let w0 := 63000000000000000000 in
  let r : @Timed Z := MakeTimed (VStr "some value") (w0 + 2) in
  Dedup_times 2 (Some (returning (VStr "some value"))) (Some (NowTimer_Time now))
              (Some (Duration_IsExpired now time_Minute))
              (NewMem Timed_zero) (mkEnv w0 [])
  = (Ret [r; r], NewMem r,
     mkEnv (w0 + 4)
           [CallIsExpired Timed_zero; CallIsExpired Timed_zero; CallGet;
            CallTime; CallIsExpired r]).
Proof.
  intros now w0 r.
  exact (X19_NowTimer_with_Duration now (returning (VStr "some value"))
           time_Minute Timed_zero (mkEnv w0 []) (VStr "some value") (w0 + 2)
           eq_refl eq_refl eq_refl ltac:(discriminate)).
Defined.

(** X20 with a getter that panics with an error and the timer [Inst(7)],
    on a state that holds "old" stamped 3. *)
Lemma X20_refresh_is_wholesale_witness :
  let get : @Getter Z := Either_as_Getter (mkEither (VErr "some error")) in
  let v := MakeTimed (VStr "old") 3 in
  exists expected e4,
    bind (in_Either (Either_SetGetter get))
         (fun _ => Timed_SetTimer (Some (Inst_Time 7)))
         Timed_zero (mkEnv 0 [CallIsExpired v; CallIsExpired v])
      = (Ret tt, expected, e4) /\
    Mem_Dedup get (Some (Inst_Time 7)) (Some Void_IsExpired) (NewMem v)
              (mkEnv 0 [])
      = (Ret expected, NewMem expected, e4).
Proof.
  intros get v.
  apply (X20_refresh_is_wholesale get (Some (Inst_Time 7)) (Some Void_IsExpired)
           v (mkEnv 0 []) (mkEnv 0 [CallIsExpired v])
           (mkEnv 0 [CallIsExpired v; CallIsExpired v]) eq_refl eq_refl).
  - intros g [= <-]. exact I.
  - intros c w [= <-]. exists 7. reflexivity.
Defined.
